(** * mclick: a shallow embedding of [mclick.c] and its verified properties

    The program is a single C++ translation unit: it reads the command
    line, brings up a [/dev/uinput] virtual mouse, and drives a bounded or
    a time-bounded press/hold/release loop.  The embedding keeps the
    functions of the source under their own names.  Everything the
    operating system decides (results of [open], [ioctl], [write], how late
    a sleep returns) comes from a [world] record; everything the process
    does that is visible from outside is appended to a [trace].  *)

From Stdlib Require Import ZArith List String Ascii Bool Lia.
Import ListNotations.
Local Open Scope string_scope.
Local Open Scope list_scope.
Local Open Scope Z_scope.

(** ** Constants *)

Module Consts.

(** lines 21-23 *)
Definition DEFAULT_HOLD_MS : Z := 120.
Definition DEFAULT_CLICK_SPEED_MS : Z := 120.
Definition DEFAULT_CLICK_COUNT : Z := 1.

(** <stdlib.h> *)
Definition EXIT_SUCCESS : Z := 0.
Definition EXIT_FAILURE : Z := 1.

(** <linux/input-event-codes.h>, <linux/input.h> *)
Definition EV_SYN : Z := 0.
Definition EV_KEY : Z := 1.
Definition SYN_REPORT : Z := 0.
Definition BTN_LEFT : Z := 272.   (* 0x110 *)
Definition BTN_RIGHT : Z := 273.  (* 0x111 *)

(** [sizeof (struct uinput_user_dev)]: name[80], input_id (4 x u16),
    ff_effects_max (u32), four arrays of 64 s32. *)
Definition sizeof_uinput_user_dev : Z := 80 + 8 + 4 + 4 * (64 * 4).

Definition INT_MIN : Z := - 2 ^ 31.
Definition INT_MAX : Z := 2 ^ 31 - 1.

End Consts.
Import Consts.

(** ** Machine integers

    [int] is 32 bits wide.  Signed overflow is undefined in C++; where the
    source can reach it ([value * 1000] in [parse_duration]) the model
    takes the two's-complement result the usual targets produce.  A
    conversion to [uint16_t] keeps the low sixteen bits. *)

Definition wrap_int (z : Z) : Z := (z + 2 ^ 31) mod 2 ^ 32 - 2 ^ 31.
Definition to_uint16 (z : Z) : Z := Z.land z 65535.
Definition in_int (z : Z) : bool := (INT_MIN <=? z) && (z <=? INT_MAX).

(** ** Characters and strings (<cctype>, <string>) *)

Definition isdigit (c : ascii) : bool :=
  (48 <=? N_of_ascii c)%N && (N_of_ascii c <=? 57)%N.

Definition isspace (c : ascii) : bool :=
  ((9 <=? N_of_ascii c)%N && (N_of_ascii c <=? 13)%N) || (N_of_ascii c =? 32)%N.

Definition digit_val (c : ascii) : Z := Z.of_N (N_of_ascii c) - 48.

(** [s[0]] of a [std::string] (or of a C string): the terminating NUL when
    the string is empty. *)
Definition front (s : string) : ascii :=
  match s with
  | EmptyString => zero
  | String c _ => c
  end.

Fixpoint mem_char (c : ascii) (set : string) : bool :=
  match set with
  | EmptyString => false
  | String d set' => Ascii.eqb c d || mem_char c set'
  end.

(** [s.find_first_not_of(set)]; [None] is [string::npos]. *)
Fixpoint find_first_not_of (s set : string) : option nat :=
  match s with
  | EmptyString => None
  | String c s' =>
      if mem_char c set then option_map S (find_first_not_of s' set)
      else Some O
  end.

(** ** [std::stoi]

    [stoi] is [strtol] in base ten followed by two checks: nothing
    converted raises [invalid_argument]; a value that does not fit [int]
    raises [out_of_range].  [strtol] skips leading white space, takes one
    optional sign and then the longest run of digits. *)

Inductive exn := invalid_argument | out_of_range.

Fixpoint skip_space (s : string) : string :=
  match s with
  | String c s' => if isspace c then skip_space s' else s
  | EmptyString => s
  end.

Definition take_sign (s : string) : bool * string :=
  match s with
  | String c s' =>
      if Ascii.eqb c "-" then (true, s')
      else if Ascii.eqb c "+" then (false, s')
      else (false, s)
  | EmptyString => (false, s)
  end.

(** Value of the longest run of leading digits, most significant first. *)
Fixpoint read_digits (acc : Z) (s : string) : Z :=
  match s with
  | String c s' => if isdigit c then read_digits (10 * acc + digit_val c) s' else acc
  | EmptyString => acc
  end.

Definition stoi (s : string) : exn + Z :=
  let (neg, body) := take_sign (skip_space s) in
  if isdigit (front body) then
    let magnitude := read_digits 0 body in
    let v := if neg then - magnitude else magnitude in
    if in_int v then inr v else inl out_of_range
  else inl invalid_argument.

(** ** What the process does: the trace *)

Inductive ioctl_req :=
| UI_SET_EVBIT (bit : Z)
| UI_SET_KEYBIT (bit : Z)
| UI_DEV_CREATE.

(** Console lines, by the text of the source that prints them. *)
Inductive message :=
| MsgOpenFailed          (* "[ERROR] Failed to open uinput device: ..." + "[HELP] Try running with sudo" *)
| MsgCapabilitiesFailed  (* "[ERROR] Failed to set device capabilities" *)
| MsgDeviceInfoFailed    (* "[ERROR] Failed to write device info: ..." *)
| MsgCreateFailed        (* "[ERROR] Failed to create device: ..." *)
| MsgSendFailed          (* "[ERROR] Failed to send event: ..." *)
| MsgDebugKey (value code : Z)  (* "[DEBUG] hh:mm:ss:ms Press|Release code=..." *)
| MsgInvalidDuration (s : string)
| MsgDebugTimed (duration_ms hold_ms speed_ms : Z)
| MsgUsage (program_name : string)
| MsgInvalidButton (c : ascii)
| MsgDebugEnabled
| MsgException.

Inductive event :=
| SysOpen (result : Z)                       (* open("/dev/uinput", O_WRONLY | O_NONBLOCK) *)
| SysIoctl (fd : Z) (req : ioctl_req) (result : Z)
| SysWriteDev (fd : Z) (result : Z)          (* write of the uinput_user_dev record *)
| SysWriteEvent (fd : Z) (time type code value : Z) (result : Z)  (* write of one input_event *)
| SysClose (fd : Z)
| SysSleep (ms : Z)                          (* this_thread::sleep_for *)
| Stdout (m : message)
| Stderr (m : message).

(** ** What the operating system decides: the world *)

Record world := {
  open_result : Z;                      (* a descriptor, or negative *)
  ioctl_result : ioctl_req -> Z;        (* negative on failure *)
  write_dev_result : Z;                 (* bytes written, or negative *)
  write_event_result : nat -> Z;        (* result of the k-th input_event write *)
  start_clock : Z;                      (* clock reading when the process starts, ms *)
  oversleep : nat -> nat                (* how late the k-th sleep returns, ms *)
}.

(** ** Process state: the two globals of lines 33-34, the clock, and the
    output so far. *)

Record state := {
  debug_mode : bool;
  click_speed_ms : Z;
  clock : Z;
  writes_done : nat;
  sleeps_done : nat;
  trace : list event
}.

Definition initial_state (w : world) : state :=
  {| debug_mode := false;
     click_speed_ms := DEFAULT_CLICK_SPEED_MS;
     clock := start_clock w;
     writes_done := O;
     sleeps_done := O;
     trace := [] |}.

Definition emit (e : event) (st : state) : state :=
  {| debug_mode := debug_mode st;
     click_speed_ms := click_speed_ms st;
     clock := clock st;
     writes_done := writes_done st;
     sleeps_done := sleeps_done st;
     trace := trace st ++ [e] |}.

(** ** The monad: state, plus the three ways a call does not return *)

Inductive outcome (A : Type) :=
| Ok (a : A)            (* normal return *)
| Exit (code : Z)       (* exit(code) was called *)
| Uncaught (e : exn)    (* an exception is propagating *)
| OutOfFuel.            (* the model's loop bound was reached *)
Arguments Ok {A} a.
Arguments Exit {A} code.
Arguments Uncaught {A} e.
Arguments OutOfFuel {A}.

Definition M (A : Type) : Type := world -> state -> outcome A * state.

Definition ret {A} (a : A) : M A := fun _ st => (Ok a, st).

Definition bind {A B} (m : M A) (k : A -> M B) : M B :=
  fun w st =>
    match m w st with
    | (Ok a, st') => k a w st'
    | (Exit c, st') => (Exit c, st')
    | (Uncaught e, st') => (Uncaught e, st')
    | (OutOfFuel, st') => (OutOfFuel, st')
    end.

Notation "x <- m ;; k" := (bind m (fun x => k))
  (at level 61, m at next level, right associativity).
Notation "m ;; k" := (bind m (fun _ => k))
  (at level 61, right associativity).

Definition exit {A} (code : Z) : M A := fun _ st => (Exit code, st).
Definition throw {A} (e : exn) : M A := fun _ st => (Uncaught e, st).
Definition out_of_fuel {A} : M A := fun _ st => (OutOfFuel, st).

Definition log (e : event) : M unit := fun _ st => (Ok tt, emit e st).
Definition cout (m : message) : M unit := log (Stdout m).
Definition cerr (m : message) : M unit := log (Stderr m).
Definition get {A} (f : state -> A) : M A := fun _ st => (Ok (f st), st).
Definition when (b : bool) (m : M unit) : M unit := if b then m else ret tt.

(** Short-circuit [||] over calls that have effects. *)
Definition orelse (a b : M bool) : M bool :=
  x <- a ;; if x then ret true else b.

(** ** System calls *)

Definition sys_open : M Z :=
  fun w st => (Ok (open_result w), emit (SysOpen (open_result w)) st).

Definition sys_ioctl (fd : Z) (req : ioctl_req) : M Z :=
  fun w st => (Ok (ioctl_result w req), emit (SysIoctl fd req (ioctl_result w req)) st).

Definition sys_write_dev (fd : Z) : M Z :=
  fun w st => (Ok (write_dev_result w), emit (SysWriteDev fd (write_dev_result w)) st).

Definition sys_close (fd : Z) : M unit := log (SysClose fd).

(** One [write] of an [input_event]; [ie.time] is the clock reading taken
    just before (line 85). *)
Definition sys_write_event (fd type code value : Z) : M Z :=
  fun w st =>
    let r := write_event_result w (writes_done st) in
    (Ok r,
     {| debug_mode := debug_mode st;
        click_speed_ms := click_speed_ms st;
        clock := clock st;
        writes_done := S (writes_done st);
        sleeps_done := sleeps_done st;
        trace := trace st ++ [SysWriteEvent fd (clock st) type code value r] |}).

(** lines 115-117.  [sleep_for] returns at once on a non-positive duration
    and never early; how much later is the world's business. *)
Definition sleep_ms (ms : Z) : M unit :=
  fun w st =>
    (Ok tt,
     {| debug_mode := debug_mode st;
        click_speed_ms := click_speed_ms st;
        clock := clock st + Z.max 0 ms + Z.of_nat (oversleep w (sleeps_done st));
        writes_done := writes_done st;
        sleeps_done := S (sleeps_done st);
        trace := trace st ++ [SysSleep ms] |}).

(** lines 119-121, in milliseconds. *)
Definition now : M Z := get clock.

Definition set_debug_mode (b : bool) : M unit :=
  fun _ st =>
    (Ok tt,
     {| debug_mode := b;
        click_speed_ms := click_speed_ms st;
        clock := clock st;
        writes_done := writes_done st;
        sleeps_done := sleeps_done st;
        trace := trace st |}).

Definition store_click_speed_ms (v : Z) : M unit :=
  fun _ st =>
    (Ok tt,
     {| debug_mode := debug_mode st;
        click_speed_ms := v;
        clock := clock st;
        writes_done := writes_done st;
        sleeps_done := sleeps_done st;
        trace := trace st |}).

(** ** Device session (lines 36-80) *)

Definition setup_uinput_device : M Z :=
  fd <- sys_open ;;
  if fd <? 0 then
    cerr MsgOpenFailed ;;
    exit EXIT_FAILURE
  else
    caps_failed <-
      orelse (r <- sys_ioctl fd (UI_SET_EVBIT EV_KEY) ;; ret (r <? 0))
     (orelse (r <- sys_ioctl fd (UI_SET_KEYBIT BTN_LEFT) ;; ret (r <? 0))
             (r <- sys_ioctl fd (UI_SET_KEYBIT BTN_RIGHT) ;; ret (r <? 0))) ;;
    if caps_failed : bool then
      cerr MsgCapabilitiesFailed ;;
      sys_close fd ;;
      exit EXIT_FAILURE
    else
      n <- sys_write_dev fd ;;
      if negb (n =? sizeof_uinput_user_dev) then
        cerr MsgDeviceInfoFailed ;;
        sys_close fd ;;
        exit EXIT_FAILURE
      else
        r <- sys_ioctl fd UI_DEV_CREATE ;;
        if r <? 0 then
          cerr MsgCreateFailed ;;
          sys_close fd ;;
          exit EXIT_FAILURE
        else ret fd.

(** ** Event emission (lines 82-113) *)

Definition send_input_event (fd type code value : Z) : M unit :=
  r <- sys_write_event fd type code value ;;
  if r <? 0 then
    cerr MsgSendFailed ;;
    ret tt
  else
    dbg <- get debug_mode ;;
    when (dbg && (type =? EV_KEY)) (cout (MsgDebugKey value code)).

(** [button] is an [int] narrowed to the [uint16_t code] parameter. *)
Definition send_event (fd button action : Z) : M unit :=
  send_input_event fd EV_KEY (to_uint16 button) action ;;
  send_input_event fd EV_SYN SYN_REPORT 0.

(** ** Click driver *)

(** lines 170-179.  [n] is the number of iterations still to run, [i] the
    loop variable; the loop is entered with [n = count - i]. *)
Fixpoint perform_clicks_from (n : nat) (i : Z)
    (fd button count hold_ms speed_ms : Z) : M unit :=
  match n with
  | O => ret tt
  | S n' =>
      send_event fd button 1 ;;
      sleep_ms hold_ms ;;
      send_event fd button 0 ;;
      when (i <? count - 1) (sleep_ms speed_ms) ;;
      perform_clicks_from n' (i + 1) fd button count hold_ms speed_ms
  end.

Definition perform_clicks (fd button count hold_ms speed_ms : Z) : M unit :=
  perform_clicks_from (Z.to_nat count) 0 fd button count hold_ms speed_ms.

(** lines 189-199: the [while] loop, one unit of fuel per test of the
    condition. *)
Fixpoint timed_loop (fuel : nat) (start : Z)
    (fd button duration_ms hold_ms speed_ms : Z) : M unit :=
  match fuel with
  | O => out_of_fuel
  | S fuel' =>
      t <- now ;;
      if t - start <? duration_ms then
        send_event fd button 1 ;;
        sleep_ms hold_ms ;;
        send_event fd button 0 ;;
        sleep_ms speed_ms ;;
        timed_loop fuel' start fd button duration_ms hold_ms speed_ms
      else ret tt
  end.

(** lines 181-200 *)
Definition perform_timed_clicks (fuel : nat)
    (fd button duration_ms hold_ms speed_ms : Z) : M unit :=
  dbg <- get debug_mode ;;
  when dbg (cout (MsgDebugTimed duration_ms hold_ms speed_ms)) ;;
  start <- now ;;
  timed_loop fuel start fd button duration_ms hold_ms speed_ms.

(** ** Command line *)

(** A [stoi] call outside any handler: the exception propagates. *)
Definition stoi_or_throw (s : string) : M Z :=
  match stoi s with
  | inr v => ret v
  | inl e => throw e
  end.

(** lines 123-128 *)
Fixpoint has_option (argv : list string) (option : string) : bool :=
  match argv with
  | [] => false
  | arg :: rest => if arg =? option then true else has_option rest option
  end%string.

(** lines 130-136: the scan starts at [argv[0]]. *)
Fixpoint get_count (argv : list string) : M Z :=
  match argv with
  | [] => ret DEFAULT_CLICK_COUNT
  | arg :: rest =>
      if isdigit (front arg) then stoi_or_throw arg
      else get_count rest
  end.

(** [suffix_pos != string::npos && s[suffix_pos] == 's'] (line 160) *)
Definition seconds_suffix (s : string) (suffix_pos : option nat) : bool :=
  match suffix_pos with
  | Some pos =>
      match String.get pos s with
      | Some c => Ascii.eqb c "s"
      | None => false
      end
  | None => false
  end.

(** lines 152-163, the body of the [try] block. *)
Definition parse_duration_body (s : string) : exn + Z :=
  let suffix_pos := find_first_not_of s "0123456789" in
  match stoi s with
  | inl e => inl e
  | inr value =>
      if value <=? 0 then inl invalid_argument
      else if seconds_suffix s suffix_pos then inr (wrap_int (value * 1000))
      else inr value
  end.

(** lines 151-168: [catch (...)] turns every exception into a diagnostic
    and [exit(EXIT_FAILURE)]. *)
Definition parse_duration (duration_str : string) : M Z :=
  match parse_duration_body duration_str with
  | inr v => ret v
  | inl _ =>
      cerr (MsgInvalidDuration duration_str) ;;
      exit EXIT_FAILURE
  end.

(** lines 142-149: the first [argv[i]] equal to [option] that has a
    successor decides. *)
Fixpoint get_duration (argv : list string) (option : string) : M Z :=
  match argv with
  | [] => ret 0
  | arg :: rest =>
      match rest with
      | next :: _ =>
          if (option =? arg)%string then parse_duration next
          else get_duration rest option
      | [] => get_duration rest option
      end
  end.

(** lines 202-211 *)
Definition print_help (program_name : string) : M unit :=
  cout (MsgUsage program_name).

(** line 214 *)
Definition BUTTONS : list (ascii * Z) :=
  [("l"%char, BTN_LEFT); ("r"%char, BTN_RIGHT)].

Fixpoint find_button (table : list (ascii * Z)) (c : ascii) : option Z :=
  match table with
  | [] => None
  | (k, v) :: table' => if Ascii.eqb k c then Some v else find_button table' c
  end.

(** lines 233-249.  [args] is [argv + i]; an iteration that runs [++i]
    continues two elements further.  The state carries [debug_mode] and
    [click_speed_ms]; [hold_ms] and [duration_ms] are the locals. *)
Fixpoint main_options (args argv : list string) (hold_ms duration_ms : Z)
  : M (Z * Z) :=
  match args with
  | [] => ret (hold_ms, duration_ms)
  | arg :: rest =>
      if ((arg =? "-d") || (arg =? "--debug"))%string then
        set_debug_mode true ;;
        cout MsgDebugEnabled ;;
        main_options rest argv hold_ms duration_ms
      else
        match rest with
        | next :: rest' =>                       (* i + 1 < argc *)
            if ((arg =? "-h") || (arg =? "--hold"))%string then
              h <- parse_duration next ;;
              main_options rest' argv h duration_ms
            else if ((arg =? "-cs") || (arg =? "--clickspeed"))%string then
              v <- parse_duration next ;;
              store_click_speed_ms v ;;
              main_options rest' argv hold_ms duration_ms
            else if ((arg =? "-t") || (arg =? "--time"))%string then
              d <- get_duration argv arg ;;
              main_options rest argv hold_ms d
            else main_options rest argv hold_ms duration_ms
        | [] => main_options rest argv hold_ms duration_ms
        end
  end.

(** [try { ... } catch (const exception&) { ... }] *)
Definition try_catch {A} (m : M A) (handler : exn -> M A) : M A :=
  fun w st =>
    match m w st with
    | (Uncaught e, st') => handler e w st'
    | r => r
    end.

(** lines 213-267.  [argv] is never empty on the platform; [fuel] bounds
    the timed loop only. *)
Definition main (fuel : nat) (argv : list string) : M Z :=
  match argv with
  | program_name :: arg1 :: rest =>
      if ((arg1 =? "-h") || (arg1 =? "--help"))%string then
        print_help program_name ;;
        ret EXIT_FAILURE
      else
        let button_char := front arg1 in
        match find_button BUTTONS button_char with
        | None =>
            cerr (MsgInvalidButton button_char) ;;
            ret EXIT_FAILURE
        | Some button =>
            count <- get_count argv ;;
            opts <- main_options rest argv DEFAULT_HOLD_MS 0 ;;
            let (hold_ms, duration_ms) := opts : Z * Z in
            fd <- setup_uinput_device ;;
            failed <-
              try_catch
                ((if duration_ms >? 0 then
                    speed <- get click_speed_ms ;;
                    perform_timed_clicks fuel fd button duration_ms hold_ms speed
                  else
                    speed <- get click_speed_ms ;;
                    perform_clicks fd button count hold_ms speed) ;;
                 ret false)
                (fun _ => cerr MsgException ;; ret true) ;;
            if failed : bool then
              sys_close fd ;;
              ret EXIT_FAILURE
            else
              sys_close fd ;;
              ret EXIT_SUCCESS
        end
  | _ =>
      print_help (hd "" argv) ;;
      ret EXIT_FAILURE
  end.

(** A whole run of the process.  [Ok c] is [return c] from [main], [Exit c]
    a call of [exit]; [Uncaught] at this level is [std::terminate]. *)
Definition run (fuel : nat) (argv : list string) (w : world)
  : outcome Z * state :=
  main fuel argv w (initial_state w).

(** ** Reading a trace *)

Definition is_console (e : event) : bool :=
  match e with
  | Stdout _ | Stderr _ => true
  | _ => false
  end.

(** The system calls of a trace, console output left out. *)
Definition syscalls (tr : list event) : list event :=
  filter (fun e => negb (is_console e)) tr.

(** What the click driver does to the device and to the clock, without
    descriptor, time stamp and result. *)
Inductive action :=
| AWrite (type code value : Z)
| ASleep (ms : Z).

Definition action_of (e : event) : list action :=
  match e with
  | SysWriteEvent _ _ type code value _ => [AWrite type code value]
  | SysSleep ms => [ASleep ms]
  | _ => []
  end.

Definition actions_of (tr : list event) : list action := flat_map action_of tr.

(** The shape of the emitted sequence: the [input_event] records handed
    to [write], in order, as (type, code, value). *)
Definition wire_of (e : event) : list (Z * Z * Z) :=
  match e with
  | SysWriteEvent _ _ type code value _ => [(type, code, value)]
  | _ => []
  end.

Definition shape (tr : list event) : list (Z * Z * Z) := flat_map wire_of tr.

(** Total of the durations handed to [sleep_ms]. *)
Definition slept (tr : list action) : Z :=
  fold_right (fun a acc => match a with ASleep ms => ms + acc | _ => acc end) 0 tr.

Definition is_key (value : Z) (a : action) : bool :=
  match a with
  | AWrite type _ v => (type =? EV_KEY) && (v =? value)
  | ASleep _ => false
  end.

Definition presses (tr : list action) : nat := List.length (filter (is_key 1) tr).
Definition releases (tr : list action) : nat := List.length (filter (is_key 0) tr).

(** One press/hold/release cycle as section 4.2 of the specification
    words it. *)
Definition cycle_script (button hold_ms : Z) : list action :=
  [AWrite EV_KEY button 1; AWrite EV_SYN SYN_REPORT 0;
   ASleep hold_ms;
   AWrite EV_KEY button 0; AWrite EV_SYN SYN_REPORT 0].

(** Bounded-count mode as the specification words it: [n] cycles, the
    inter-click delay between consecutive cycles only. *)
Fixpoint bounded_script (n : nat) (button hold_ms delay_ms : Z) : list action :=
  match n with
  | O => []
  | S n' =>
      cycle_script button hold_ms ++
      match n' with
      | O => []
      | S _ => ASleep delay_ms :: bounded_script n' button hold_ms delay_ms
      end
  end.

(** Timed mode as the specification words it: whole cycles, each one
    followed by the inter-click delay. *)
Fixpoint timed_script (n : nat) (button hold_ms delay_ms : Z) : list action :=
  match n with
  | O => []
  | S n' =>
      cycle_script button hold_ms ++ ASleep delay_ms ::
      timed_script n' button hold_ms delay_ms
  end.

(** The records among a list of actions, the sleeps dropped. *)
Definition wire_of_action (a : action) : list (Z * Z * Z) :=
  match a with
  | AWrite type code value => [(type, code, value)]
  | ASleep _ => []
  end.

(** ** Notions used in the statements *)

(** What one [send_event] leaves behind. *)
Record send_event_post (fd button action : Z) (w : world) (st st' : state) : Prop := {
  sep_debug : debug_mode st' = debug_mode st;
  sep_speed : click_speed_ms st' = click_speed_ms st;
  sep_clock : clock st' = clock st;
  sep_writes : writes_done st' = S (S (writes_done st));
  sep_sleeps : sleeps_done st' = sleeps_done st;
  sep_syscalls :
    syscalls (trace st') =
    syscalls (trace st) ++
    [SysWriteEvent fd (clock st) EV_KEY (to_uint16 button) action
       (write_event_result w (writes_done st));
     SysWriteEvent fd (clock st) EV_SYN SYN_REPORT 0
       (write_event_result w (S (writes_done st)))];
  sep_actions :
    actions_of (trace st') =
    actions_of (trace st) ++
    [AWrite EV_KEY (to_uint16 button) action; AWrite EV_SYN SYN_REPORT 0]
}.

(** Sleeps that return exactly on time: the clock of the specification's
    timing properties. *)
Definition exact_sleep (w : world) : Prop := forall k, oversleep w k = O.

(** Every event the call appends satisfies [P]. *)
Definition emits (P : event -> bool) {A} (m : M A) : Prop :=
  forall w st, exists es,
    trace (snd (m w st)) = trace st ++ es /\ forallb P es = true.

(** The three parts of the program and the events each can produce:
    the front end that reads the arguments, the device session, the click
    driver. *)
Definition front_event (e : event) : bool :=
  match e with
  | Stderr (MsgInvalidDuration _) | Stdout MsgDebugEnabled => true
  | _ => false
  end.

Definition setup_event (e : event) : bool :=
  match e with
  | SysOpen _ | SysIoctl _ _ _ | SysWriteDev _ _ | SysClose _ => true
  | Stderr MsgOpenFailed | Stderr MsgCapabilitiesFailed
  | Stderr MsgDeviceInfoFailed | Stderr MsgCreateFailed => true
  | _ => false
  end.

Definition click_event (e : event) : bool :=
  match e with
  | SysWriteEvent _ _ _ _ _ _ | SysSleep _ => true
  | Stderr MsgSendFailed | Stdout (MsgDebugKey _ _) | Stdout (MsgDebugTimed _ _ _) => true
  | _ => false
  end.

(** lines 229-249: everything [main] does with the arguments before the
    device is opened. *)
Definition front_end (argv rest : list string) : M (Z * (Z * Z)) :=
  count <- get_count argv ;;
  opts <- main_options rest argv DEFAULT_HOLD_MS 0 ;;
  ret (count, opts).

(** lines 251-266: the device session and the click driver. *)
Definition drive (fuel : nat) (button count hold_ms duration_ms : Z) : M Z :=
  fd <- setup_uinput_device ;;
  failed <-
    try_catch
      ((if duration_ms >? 0 then
          speed <- get click_speed_ms ;;
          perform_timed_clicks fuel fd button duration_ms hold_ms speed
        else
          speed <- get click_speed_ms ;;
          perform_clicks fd button count hold_ms speed) ;;
       ret false)
      (fun _ => cerr MsgException ;; ret true) ;;
  if failed : bool then
    sys_close fd ;;
    ret EXIT_FAILURE
  else
    sys_close fd ;;
    ret EXIT_SUCCESS.

(** line 216 *)
Definition is_help_request (argv : list string) : bool :=
  match argv with
  | _ :: arg1 :: _ => ((arg1 =? "-h") || (arg1 =? "--help"))%string
  | _ => true
  end.

(** The two diagnostics of [main] itself. *)
Definition other_event (e : event) : bool :=
  match e with
  | Stderr (MsgInvalidButton _) | Stderr MsgException => true
  | _ => false
  end.

Definition run_event (e : event) : bool :=
  front_event e || setup_event e || click_event e || other_event e.

(** The process ends with a status other than 0: [main] returns non-zero,
    [exit] is called with non-zero, or an exception reaches
    [std::terminate] (abort). *)
Definition exits_nonzero (o : outcome Z) : Prop :=
  match o with
  | Ok c | Exit c => c <> 0
  | Uncaught _ => True
  | OutOfFuel => False
  end.

(** A call that, when it does not return, either called
    [exit(EXIT_FAILURE)] or let an exception escape. *)
Definition fails_loudly {A} (m : M A) : Prop :=
  forall w st,
    match fst (m w st) with
    | Exit c => c = EXIT_FAILURE
    | OutOfFuel => False
    | _ => True
    end.

(** One of the steps of [setup_uinput_device] fails in this world. *)
Definition acquisition_fails (w : world) : Prop :=
  open_result w < 0
  \/ ioctl_result w (UI_SET_EVBIT EV_KEY) < 0
  \/ ioctl_result w (UI_SET_KEYBIT BTN_LEFT) < 0
  \/ ioctl_result w (UI_SET_KEYBIT BTN_RIGHT) < 0
  \/ write_dev_result w <> sizeof_uinput_user_dev
  \/ ioctl_result w UI_DEV_CREATE < 0.

Definition is_diagnostic (e : event) : bool :=
  match e with
  | Stderr _ => true
  | _ => false
  end.

(** [isdigit(arg[0])] (line 133) *)
Definition digit_leading (s : string) : bool := isdigit (front s).

Fixpoint all_digits (s : string) : bool :=
  match s with
  | EmptyString => true
  | String c s' => isdigit c && all_digits s'
  end.

(** A duration value that is non-numeric ([stoi] converts nothing), zero
    or negative (or beyond the range of [int]). *)
Definition invalid_duration (s : string) : bool :=
  match stoi s with
  | inr v => v <=? 0
  | inl _ => true
  end.

Definition is_hold_option (s : string) : bool := ((s =? "-h") || (s =? "--hold"))%string.
Definition is_speed_option (s : string) : bool :=
  ((s =? "-cs") || (s =? "--clickspeed"))%string.
Definition is_time_option (s : string) : bool := ((s =? "-t") || (s =? "--time"))%string.

Definition is_duration_option (s : string) : bool :=
  is_hold_option s || is_speed_option s || is_time_option s.

(** The three console lines with which [main] turns a command line down. *)
Definition is_rejection (e : event) : bool :=
  match e with
  | Stdout (MsgUsage _) => true
  | Stderr (MsgInvalidButton _) | Stderr (MsgInvalidDuration _) => true
  | _ => false
  end.

(** When a call exits, the last thing it did was to print the
    invalid-duration diagnostic; the only exception it lets escape is
    [out_of_range]. *)
Definition diagnosed {A} (m : M A) : Prop :=
  forall w st, exists es,
    trace (snd (m w st)) = trace st ++ es
    /\ match fst (m w st) with
       | Exit _ => exists s, last es (SysClose 0) = Stderr (MsgInvalidDuration s)
       | Uncaught e => e = out_of_range
       | _ => True
       end.

(** Worlds that treat device acquisition alike. *)
Definition same_device (w1 w2 : world) : Prop :=
  open_result w1 = open_result w2
  /\ (forall req, ioctl_result w1 req = ioctl_result w2 req)
  /\ write_dev_result w1 = write_dev_result w2.

(** Worlds whose clocks behave alike. *)
Definition same_clock (w1 w2 : world) : Prop :=
  start_clock w1 = start_clock w2
  /\ (forall k, oversleep w1 k = oversleep w2 k).

(** Two runs are compared with or without their clocks; [timing = true]:
    the two runs also see the same clock. *)
Definition alike_worlds (timing : bool) (w1 w2 : world) : Prop :=
  same_device w1 w2 /\ (timing = true -> same_clock w1 w2).

(** States that agree on the globals and on the shape of what was
    emitted so far (and on the clock, under [timing]); the results of the
    [input_event] writes and the console output may differ. *)
Definition alike (timing : bool) (st1 st2 : state) : Prop :=
  debug_mode st1 = debug_mode st2
  /\ click_speed_ms st1 = click_speed_ms st2
  /\ shape (trace st1) = shape (trace st2)
  /\ (timing = true ->
      clock st1 = clock st2 /\ sleeps_done st1 = sleeps_done st2).

(** The call ends the same way in both runs and keeps the states alike. *)
Definition indifferent (timing : bool) {A} (m : M A) : Prop :=
  forall w1 w2 st1 st2,
    alike_worlds timing w1 w2 -> alike timing st1 st2 ->
    fst (m w1 st1) = fst (m w2 st2)
    /\ alike timing (snd (m w1 st1)) (snd (m w2 st2)).

(** No argument is [-t] or [--time]: the run is in bounded-count mode. *)
Definition no_time_option (argv : list string) : Prop :=
  has_option argv "-t" = false /\ has_option argv "--time" = false.

(** The loop ran to its end, or the loop bound of the model was hit. *)
Definition completes {A} (ok : A) (o : outcome A) : Prop := o = Ok ok \/ o = OutOfFuel.

(** Once the device is set up nothing makes the run fail: [drive] either
    stops in [setup_uinput_device], before any emission, or ends in
    [EXIT_SUCCESS] (or in the loop bound of the model). *)
Definition drive_post (st : state) (r : outcome Z * state) : Prop :=
  completes EXIT_SUCCESS (fst r)
  \/ (fst r = Exit EXIT_FAILURE
      /\ exists es, trace (snd r) = trace st ++ es /\ forallb setup_event es = true).

(** [w], except that every [input_event] write succeeds. *)
Definition all_writes_succeed (w : world) : world :=
  {| open_result := open_result w;
     ioctl_result := ioctl_result w;
     write_dev_result := write_dev_result w;
     write_event_result := fun _ => 24;
     start_clock := start_clock w;
     oversleep := oversleep w |}.

(** ** Notions used for the further properties *)

(** The arguments the option loop of [main] reacts to (lines 236-246). *)
Definition is_known_option (s : string) : bool :=
  ((s =? "-d") || (s =? "--debug"))%string || is_duration_option s.

(** The first character lets [stoi] start a conversion: a digit, white
    space or a sign. *)
Definition may_start_number (c : ascii) : bool :=
  isdigit c || isspace c || Ascii.eqb c "-" || Ascii.eqb c "+".

(** The six calls of a device acquisition in which every step succeeds,
    in the order of lines 37-71. *)
Definition setup_calls (w : world) : list event :=
  let fd := open_result w in
  [SysOpen fd;
   SysIoctl fd (UI_SET_EVBIT EV_KEY) (ioctl_result w (UI_SET_EVBIT EV_KEY));
   SysIoctl fd (UI_SET_KEYBIT BTN_LEFT) (ioctl_result w (UI_SET_KEYBIT BTN_LEFT));
   SysIoctl fd (UI_SET_KEYBIT BTN_RIGHT) (ioctl_result w (UI_SET_KEYBIT BTN_RIGHT));
   SysWriteDev fd (write_dev_result w);
   SysIoctl fd UI_DEV_CREATE (ioctl_result w UI_DEV_CREATE)].

(** The diagnostic [setup_uinput_device] prints for the step that fails
    first (lines 39-43, 51, 64-66, 72-74). *)
Definition failure_diagnostic (w : world) : message :=
  if open_result w <? 0 then MsgOpenFailed
  else if (ioctl_result w (UI_SET_EVBIT EV_KEY) <? 0)
          || (ioctl_result w (UI_SET_KEYBIT BTN_LEFT) <? 0)
          || (ioctl_result w (UI_SET_KEYBIT BTN_RIGHT) <? 0)
  then MsgCapabilitiesFailed
  else if negb (write_dev_result w =? sizeof_uinput_user_dev) then MsgDeviceInfoFailed
  else MsgCreateFailed.

(** What a failing acquisition does with the descriptor before [exit]:
    nothing when [open] failed (line 44), [close(fd)] otherwise (lines 52,
    67, 75). *)
Definition release_calls (w : world) : list event :=
  if open_result w <? 0 then [] else [SysClose (open_result w)].

(** The result of an acquisition call is one [setup_uinput_device] takes
    for a failure (lines 38, 48-50, 63, 71). *)
Definition step_failed (e : event) : bool :=
  match e with
  | SysOpen r => r <? 0
  | SysIoctl _ _ r => r <? 0
  | SysWriteDev _ r => negb (r =? sizeof_uinput_user_dev)
  | _ => false
  end.

(** What the click driver may do once the device exists: sleep, or write
    to descriptor [fd] a key event of the button with value 0 or 1, or a
    synchronization report of value 0. *)
Definition driver_call (fd button : Z) (e : event) : bool :=
  match e with
  | SysWriteEvent fd' _ type code value _ =>
      (fd' =? fd)
      && (((type =? EV_KEY) && (code =? button) && ((value =? 0) || (value =? 1)))
          || ((type =? EV_SYN) && (code =? SYN_REPORT) && (value =? 0)))
  | SysSleep _ => true
  | _ => false
  end.

Definition driver_event (fd button : Z) (e : event) : bool :=
  is_console e || driver_call fd button e.

(** The five ways a run can go, with the outcome and the trace of each:
    usage printed; button turned down; arguments turned down by the front
    end; device acquisition failed; a session with the device. *)
Inductive run_shape (argv : list string) (w : world)
  : outcome Z -> list event -> Prop :=
| shape_usage :
    is_help_request argv = true ->
    run_shape argv w (Ok EXIT_FAILURE) [Stdout (MsgUsage (hd "" argv))]
| shape_bad_button program_name arg1 rest :
    argv = program_name :: arg1 :: rest ->
    find_button BUTTONS (front arg1) = None ->
    run_shape argv w (Ok EXIT_FAILURE) [Stderr (MsgInvalidButton (front arg1))]
| shape_bad_arguments o es :
    o = Exit EXIT_FAILURE \/ o = Uncaught out_of_range ->
    forallb front_event es = true ->
    run_shape argv w o es
| shape_no_device es1 es2 :
    acquisition_fails w ->
    forallb front_event es1 = true ->
    forallb setup_event es2 = true ->
    existsb is_diagnostic es2 = true ->
    (forall fd, In (SysOpen fd) es2 -> fd = open_result w) ->
    (0 <= open_result w -> last es2 (SysOpen 0) = SysClose (open_result w)) ->
    run_shape argv w (Exit EXIT_FAILURE) (es1 ++ es2)
| shape_session program_name arg1 rest button o es1 es2 closing :
    argv = program_name :: arg1 :: rest ->
    find_button BUTTONS (front arg1) = Some button ->
    ~ acquisition_fails w ->
    forallb front_event es1 = true ->
    forallb click_event es2 = true ->
    forallb (driver_event (open_result w) (to_uint16 button)) es2 = true ->
    (o = Ok EXIT_SUCCESS /\ closing = [SysClose (open_result w)])
    \/ (o = OutOfFuel /\ closing = []) ->
    run_shape argv w o (es1 ++ setup_calls w ++ es2 ++ closing).

(** ** Some worlds *)

(** The world in which every call succeeds and every sleep is exact. *)
Definition ideal_world : world :=
  {| open_result := 3;
     ioctl_result := fun _ => 0;
     write_dev_result := sizeof_uinput_user_dev;
     write_event_result := fun _ => 24;
     start_clock := 0;
     oversleep := fun _ => O |}.

(** A world without the device node: [open] fails. *)
Definition no_device_world : world :=
  {| open_result := -1;
     ioctl_result := fun _ => 0;
     write_dev_result := sizeof_uinput_user_dev;
     write_event_result := fun _ => 24;
     start_clock := 0;
     oversleep := fun _ => O |}.

(** A world in which the device node opens and takes the capabilities and
    the device record, but [UI_DEV_CREATE] is refused. *)
Definition create_fails_world : world :=
  {| open_result := 3;
     ioctl_result := fun req => match req with UI_DEV_CREATE => -1 | _ => 0 end;
     write_dev_result := sizeof_uinput_user_dev;
     write_event_result := fun _ => 24;
     start_clock := 0;
     oversleep := fun _ => O |}.

(** [ideal_world], except that every sleep returns three milliseconds
    late. *)
Definition late_world : world :=
  {| open_result := 3;
     ioctl_result := fun _ => 0;
     write_dev_result := sizeof_uinput_user_dev;
     write_event_result := fun _ => 24;
     start_clock := 0;
     oversleep := fun _ => 3%nat |}.

(** A world in which every [input_event] write fails. *)
Definition failing_writes_world : world :=
  {| open_result := 3;
     ioctl_result := fun _ => 0;
     write_dev_result := sizeof_uinput_user_dev;
     write_event_result := fun _ => -1;
     start_clock := 0;
     oversleep := fun _ => O |}.

(** A world like [ideal_world] but started later, whose sleeps all return
    three milliseconds late and whose writes all fail. *)
Definition sluggish_world : world :=
  {| open_result := 3;
     ioctl_result := fun _ => 0;
     write_dev_result := sizeof_uinput_user_dev;
     write_event_result := fun _ => -1;
     start_clock := 1000;
     oversleep := fun _ => 3%nat |}.

(** * Properties *)

(** ** Traces *)

Lemma syscalls_app (a b : list event) : syscalls (a ++ b) = syscalls a ++ syscalls b.
Proof. apply filter_app. Qed.

Lemma actions_of_app (a b : list event) :
  actions_of (a ++ b) = actions_of a ++ actions_of b.
Proof. apply flat_map_app. Qed.

Lemma shape_app (a b : list event) : shape (a ++ b) = shape a ++ shape b.
Proof. apply flat_map_app. Qed.

Lemma slept_app (a b : list action) : slept (a ++ b) = slept a + slept b.
Proof.
  induction a as [|x a IH]; simpl; [reflexivity|].
  destruct x; rewrite IH; lia.
Qed.

Lemma presses_app (a b : list action) : presses (a ++ b) = (presses a + presses b)%nat.
Proof. unfold presses. now rewrite filter_app, length_app. Qed.

Lemma releases_app (a b : list action) :
  releases (a ++ b) = (releases a + releases b)%nat.
Proof. unfold releases. now rewrite filter_app, length_app. Qed.

(** ** The event emission primitive *)

(** A call of [send_input_event] always returns; it performs one [write],
    possibly followed by one console line; nothing else changes. *)
Lemma send_input_event_run fd type code value w st :
  exists console,
    send_input_event fd type code value w st =
    (Ok tt,
     {| debug_mode := debug_mode st;
        click_speed_ms := click_speed_ms st;
        clock := clock st;
        writes_done := S (writes_done st);
        sleeps_done := sleeps_done st;
        trace := trace st ++
                 SysWriteEvent fd (clock st) type code value
                   (write_event_result w (writes_done st)) :: console |})
    /\ Forall (fun e => is_console e = true) console
    /\ (write_event_result w (writes_done st) < 0 -> console = [Stderr MsgSendFailed]).
Proof.
  unfold send_input_event, bind, sys_write_event, cerr, cout, log, get, when, ret, emit.
  simpl.
  destruct (write_event_result w (writes_done st) <? 0) eqn:Hr; simpl.
  - exists [Stderr MsgSendFailed]. rewrite <- app_assoc. repeat split; auto.
  - destruct (debug_mode st && (type =? EV_KEY)); simpl.
    + exists [Stdout (MsgDebugKey value code)]. rewrite <- app_assoc.
      repeat split; auto. intros. apply Z.ltb_ge in Hr. lia.
    + exists []. repeat split; auto. intros. apply Z.ltb_ge in Hr. lia.
Qed.

Lemma syscalls_console (l : list event) :
  Forall (fun e => is_console e = true) l -> syscalls l = [].
Proof.
  induction 1 as [|e l He _ IH]; [reflexivity|].
  unfold syscalls in *. simpl. now rewrite He.
Qed.

Lemma actions_of_console (l : list event) :
  Forall (fun e => is_console e = true) l -> actions_of l = [].
Proof.
  induction 1 as [|e l He _ IH]; [reflexivity|].
  unfold actions_of in *. simpl. rewrite IH. now destruct e.
Qed.

Lemma send_event_run fd button action w st :
  exists st',
    send_event fd button action w st = (Ok tt, st')
    /\ send_event_post fd button action w st st'.
Proof.
  unfold send_event, bind.
  destruct (send_input_event_run fd EV_KEY (to_uint16 button) action w st)
    as (c1 & -> & Hc1 & _).
  match goal with |- context [send_input_event _ _ _ _ w ?s] => set (st1 := s) end.
  destruct (send_input_event_run fd EV_SYN SYN_REPORT 0 w st1) as (c2 & -> & Hc2 & _).
  eexists; split; [reflexivity|].
  subst st1; constructor; simpl; try reflexivity.
  - rewrite !syscalls_app.
    change (syscalls (?e :: ?l)) with (e :: syscalls l).
    rewrite (syscalls_console _ Hc1), (syscalls_console _ Hc2).
    now rewrite <- app_assoc.
  - rewrite !actions_of_app.
    change (actions_of (?e :: ?l)) with (action_of e ++ actions_of l).
    rewrite (actions_of_console _ Hc1), (actions_of_console _ Hc2).
    now rewrite <- app_assoc.
Qed.

Lemma to_uint16_small (z : Z) : 0 <= z < 65536 -> to_uint16 z = z.
Proof.
  intros H. unfold to_uint16. change 65535 with (Z.ones 16).
  rewrite Z.land_ones by lia. apply Z.mod_small. change (2 ^ 16) with 65536. lia.
Qed.

(** C4. Every logical press is two [write]s in this order: a key-class
    event whose code is the selected button and whose value is 1, then a
    synchronization report of value 0; every logical release is the same
    pair with key value 0.  Nothing else reaches the device, and the call
    returns whatever the two [write]s answer. *)
Theorem send_event_key_then_sync fd button w st :
  0 <= button < 65536 ->
  (fst (send_event fd button 1 w st) = Ok tt /\
   syscalls (trace (snd (send_event fd button 1 w st))) =
   syscalls (trace st) ++
   [SysWriteEvent fd (clock st) EV_KEY button 1 (write_event_result w (writes_done st));
    SysWriteEvent fd (clock st) EV_SYN SYN_REPORT 0
      (write_event_result w (S (writes_done st)))])
  /\
  (fst (send_event fd button 0 w st) = Ok tt /\
   syscalls (trace (snd (send_event fd button 0 w st))) =
   syscalls (trace st) ++
   [SysWriteEvent fd (clock st) EV_KEY button 0 (write_event_result w (writes_done st));
    SysWriteEvent fd (clock st) EV_SYN SYN_REPORT 0
      (write_event_result w (S (writes_done st)))]).
Proof.
  intros Hb.
  destruct (send_event_run fd button 1 w st) as (s1 & E1 & P1).
  destruct (send_event_run fd button 0 w st) as (s0 & E0 & P0).
  rewrite E1, E0. simpl.
  rewrite (sep_syscalls _ _ _ _ _ _ P1), (sep_syscalls _ _ _ _ _ _ P0).
  rewrite (to_uint16_small _ Hb). auto.
Qed.

Lemma send_event_key_then_sync_witness :
  syscalls (trace (snd (send_event 3 BTN_LEFT 1 ideal_world (initial_state ideal_world)))) =
  [SysWriteEvent 3 0 EV_KEY BTN_LEFT 1 24; SysWriteEvent 3 0 EV_SYN SYN_REPORT 0 24].
Proof.
  apply (send_event_key_then_sync 3 BTN_LEFT ideal_world (initial_state ideal_world)).
  unfold BTN_LEFT. lia.
Defined.

(** ** Bounded-count mode *)

Lemma perform_clicks_from_run n : forall i fd button count hold_ms speed_ms w st,
  i + Z.of_nat n = count ->
  exists st',
    perform_clicks_from n i fd button count hold_ms speed_ms w st = (Ok tt, st')
    /\ actions_of (trace st') =
       actions_of (trace st) ++ bounded_script n (to_uint16 button) hold_ms speed_ms.
Proof.
  induction n as [|n IH]; intros i fd button count hold_ms speed_ms w st Hi.
  - exists st. split; [reflexivity|]. simpl. now rewrite app_nil_r.
  - cbn [perform_clicks_from]. unfold bind at 1.
    destruct (send_event_run fd button 1 w st) as (s1 & -> & P1).
    unfold bind at 1. cbn [sleep_ms].
    match goal with |- context [bind (send_event _ _ _) _ w ?s] => set (s2 := s) end.
    unfold bind at 1.
    destruct (send_event_run fd button 0 w s2) as (s3 & -> & P3).
    assert (A3 : actions_of (trace s3) =
                 actions_of (trace st) ++ cycle_script (to_uint16 button) hold_ms).
    { rewrite (sep_actions _ _ _ _ _ _ P3). subst s2. cbn [trace].
      rewrite actions_of_app, (sep_actions _ _ _ _ _ _ P1).
      rewrite <- !app_assoc. reflexivity. }
    unfold bind at 1.
    destruct n as [|n'].
    + replace (i <? count - 1) with false by (symmetry; apply Z.ltb_ge; lia).
      cbn [when ret perform_clicks_from]. exists s3. split; [reflexivity|].
      rewrite A3. cbn [bounded_script]. now rewrite app_nil_r.
    + replace (i <? count - 1) with true by (symmetry; apply Z.ltb_lt; lia).
      cbn [when sleep_ms].
      match goal with |- context [perform_clicks_from _ _ _ _ _ _ _ w ?s] =>
        set (s4 := s) end.
      destruct (IH (i + 1) fd button count hold_ms speed_ms w s4) as (s5 & E5 & A5);
        [lia|].
      exists s5. split; [exact E5|].
      rewrite A5. subst s4. cbn [trace]. rewrite actions_of_app, A3.
      change (bounded_script (S (S n')) (to_uint16 button) hold_ms speed_ms)
        with (cycle_script (to_uint16 button) hold_ms ++
              ASleep speed_ms :: bounded_script (S n') (to_uint16 button) hold_ms speed_ms).
      rewrite <- !app_assoc. reflexivity.
Qed.

(** Facts about the script itself. *)
Lemma bounded_script_counts n b H D :
  presses (bounded_script n b H D) = n /\
  releases (bounded_script n b H D) = n /\
  (slept (bounded_script n b H D) + D = Z.of_nat n * (H + D) \/ n = O).
Proof.
  induction n as [|n (IHp & IHr & IHs)]; [auto|].
  cbn [bounded_script]. rewrite presses_app, releases_app, slept_app.
  destruct n as [|n].
  - repeat split; try reflexivity. left.
    change (slept (cycle_script b H)) with (H + 0). change (slept []) with 0. lia.
  - change (ASleep D :: ?l) with ([ASleep D] ++ l).
    rewrite presses_app, releases_app, slept_app, IHp, IHr.
    repeat split; try reflexivity.
    left. destruct IHs as [IHs|]; [|discriminate].
    change (slept (cycle_script b H)) with (H + 0).
    change (slept [ASleep D]) with (D + 0). lia.
Qed.

Lemma bounded_script_wire n b H D :
  flat_map wire_of_action (bounded_script n b H D) =
  List.concat (repeat [(EV_KEY, b, 1); (EV_SYN, SYN_REPORT, 0);
                  (EV_KEY, b, 0); (EV_SYN, SYN_REPORT, 0)] n).
Proof.
  induction n as [|n IH]; [reflexivity|].
  cbn [bounded_script repeat concat]. rewrite flat_map_app.
  destruct n as [|n]; [reflexivity|].
  change (flat_map wire_of_action (ASleep D :: ?l)) with (flat_map wire_of_action l).
  now rewrite IH.
Qed.

Lemma last_append {A} (l l' : list A) (d : A) :
  l' <> [] -> last (l ++ l') d = last l' d.
Proof.
  intros Hne. induction l as [|x l IH]; [reflexivity|].
  simpl. rewrite IH. destruct (l ++ l') eqn:E; [|reflexivity].
  apply app_eq_nil in E. tauto.
Qed.

Lemma bounded_script_last n b H D d :
  last (bounded_script (S n) b H D) d = AWrite EV_SYN SYN_REPORT 0.
Proof.
  induction n as [|n IH]; [reflexivity|].
  change (bounded_script (S (S n)) b H D)
    with (cycle_script b H ++ ASleep D :: bounded_script (S n) b H D).
  rewrite last_append; [|discriminate].
  change (ASleep D :: ?l) with ([ASleep D] ++ l).
  rewrite last_append; [exact IH|].
  cbn [bounded_script]. discriminate.
Qed.

(** C1. A bounded-count run with [N >= 1] returns, and what it did to the
    device and the clock is exactly the bounded script: [N] presses and
    [N] releases, each press (with its report) followed by its release
    (with its report) before the next press, the delay [D] only between
    two cycles, the last action being the final release's report, and
    [N*H + (N-1)*D] milliseconds of requested sleep in total. *)
Theorem perform_clicks_bounded fd button N H D w st :
  1 <= N ->
  let r := perform_clicks fd button N H D w st in
  let b := to_uint16 button in
  let acts := bounded_script (Z.to_nat N) b H D in
  fst r = Ok tt
  /\ actions_of (trace (snd r)) = actions_of (trace st) ++ acts
  /\ Z.of_nat (presses acts) = N
  /\ Z.of_nat (releases acts) = N
  /\ flat_map wire_of_action acts =
     List.concat (repeat [(EV_KEY, b, 1); (EV_SYN, SYN_REPORT, 0);
                     (EV_KEY, b, 0); (EV_SYN, SYN_REPORT, 0)] (Z.to_nat N))
  /\ last acts (ASleep D) = AWrite EV_SYN SYN_REPORT 0
  /\ slept acts = N * H + (N - 1) * D.
Proof.
  intros HN r b acts. subst r.
  unfold perform_clicks.
  destruct (perform_clicks_from_run (Z.to_nat N) 0 fd button N H D w st)
    as (st' & -> & A); [lia|].
  destruct (bounded_script_counts (Z.to_nat N) b H D) as (Hp & Hr & Hs).
  subst acts b. cbn [fst snd].
  repeat split; auto.
  - rewrite Hp. lia.
  - rewrite Hr. lia.
  - apply bounded_script_wire.
  - destruct (Z.to_nat N) as [|n] eqn:E; [lia|]. apply bounded_script_last.
  - destruct Hs as [Hs|Hs]; [|lia]. rewrite Z2Nat.id in Hs by lia. lia.
Qed.

Lemma perform_clicks_bounded_witness :
  actions_of (trace (snd (perform_clicks 3 BTN_LEFT 3 50 100 ideal_world
                            (initial_state ideal_world)))) =
  bounded_script 3 BTN_LEFT 50 100
  /\ slept (bounded_script 3 BTN_LEFT 50 100) = 350.
Proof.
  pose proof (perform_clicks_bounded 3 BTN_LEFT 3 50 100 ideal_world
                (initial_state ideal_world)) as P.
  cbv zeta in P. destruct P as (_ & A & _ & _ & _ & _ & S); [lia|].
  split; [exact A | exact S].
Defined.

(** ** Timed mode *)

Lemma timed_loop_step fuel start fd button B H D :
  timed_loop (S fuel) start fd button B H D =
  (t <- now ;;
   if t - start <? B then
     send_event fd button 1 ;;
     sleep_ms H ;;
     send_event fd button 0 ;;
     sleep_ms D ;;
     timed_loop fuel start fd button B H D
   else ret tt).
Proof. reflexivity. Qed.

Lemma timed_script_slept k b H D :
  slept (timed_script k b H D) = Z.of_nat k * (H + D).
Proof.
  induction k as [|k IH]; [reflexivity|].
  cbn [timed_script]. rewrite slept_app.
  change (slept (ASleep D :: ?l)) with (D + slept l). rewrite IH.
  change (slept (cycle_script b H)) with (H + 0). lia.
Qed.

(** The loop returns as soon as its bound covers the cycles still needed;
    it has then run whole cycles only, and the budget is used up.  With
    exact sleeps the clock has advanced by just these cycles. *)
Lemma timed_loop_run fuel : forall start fd button B H D w st,
  0 <= H -> 0 <= D -> 0 < H + D ->
  B - (clock st - start) <= Z.of_nat fuel * (H + D) ->
  exists st' k,
    timed_loop (S fuel) start fd button B H D w st = (Ok tt, st')
    /\ actions_of (trace st') =
       actions_of (trace st) ++ timed_script k (to_uint16 button) H D
    /\ clock st + Z.of_nat k * (H + D) <= clock st'
    /\ (clock st - start < B -> (1 <= k)%nat /\ B <= clock st' - start)
    /\ (B <= clock st - start -> k = O)
    /\ (exact_sleep w ->
        clock st' = clock st + Z.of_nat k * (H + D)
        /\ (clock st - start < B -> clock st' - start < B + (H + D))).
Proof.
  induction fuel as [|fuel IH]; intros start fd button B H D w st HH HD HHD Hf;
    rewrite timed_loop_step; unfold bind at 1; unfold now at 1, get at 1;
    destruct (clock st - start <? B) eqn:Hlt.
  - apply Z.ltb_lt in Hlt. lia.
  - apply Z.ltb_ge in Hlt. exists st, O. cbn [ret timed_script].
    rewrite app_nil_r. repeat split; try lia.
  - apply Z.ltb_lt in Hlt.
    unfold bind at 1.
    destruct (send_event_run fd button 1 w st) as (s1 & -> & P1).
    unfold bind at 1. cbn [sleep_ms].
    match goal with |- context [bind (send_event _ _ _) _ w ?s] => set (s2 := s) end.
    unfold bind at 1.
    destruct (send_event_run fd button 0 w s2) as (s3 & -> & P3).
    unfold bind at 1. cbn [sleep_ms].
    match goal with |- context [timed_loop _ _ _ _ _ _ _ w ?s] => set (s4 := s) end.
    set (late := Z.of_nat (oversleep w (sleeps_done st)) +
                 Z.of_nat (oversleep w (sleeps_done s3))).
    assert (C4 : clock s4 = clock st + (H + D) + late).
    { subst s4 late. cbn [clock]. rewrite (sep_clock _ _ _ _ _ _ P3). subst s2.
      cbn [clock]. rewrite (sep_clock _ _ _ _ _ _ P1), (sep_sleeps _ _ _ _ _ _ P1). lia. }
    assert (Hlate : 0 <= late) by (subst late; lia).
    assert (Hexact : exact_sleep w -> late = 0).
    { intros Hw. subst late. now rewrite !Hw. }
    assert (A4 : actions_of (trace s4) =
                 actions_of (trace st) ++
                 cycle_script (to_uint16 button) H ++ [ASleep D]).
    { subst s4. cbn [trace]. rewrite actions_of_app, (sep_actions _ _ _ _ _ _ P3).
      subst s2. cbn [trace]. rewrite actions_of_app, (sep_actions _ _ _ _ _ _ P1).
      rewrite <- !app_assoc. reflexivity. }
    destruct (IH start fd button B H D w s4 HH HD HHD)
      as (s5 & k & E5 & A5 & C5 & L5 & G5 & X5).
    { rewrite C4. lia. }
    exists s5, (S k). split; [exact E5|].
    split.
    { rewrite A5, A4. cbn [timed_script]. rewrite <- !app_assoc. reflexivity. }
    split; [lia|].
    split.
    { intros _. split; [lia|].
      destruct (Z.lt_ge_cases (clock s4 - start) B) as [Hc|Hc]; [|lia].
      destruct (L5 Hc) as (_ & R). lia. }
    split; [lia|].
    intros Hw. destruct (X5 Hw) as (Ce & Ue). rewrite (Hexact Hw) in C4.
    split; [lia|]. intros _.
    destruct (Z.lt_ge_cases (clock s4 - start) B) as [Hc|Hc]; [now apply Ue|].
    rewrite (G5 Hc) in Ce. lia.
  - apply Z.ltb_ge in Hlt. exists st, O. cbn [ret timed_script].
    rewrite app_nil_r. repeat split; try lia.
Qed.

(** C2. A timed run with a positive budget [B] (hold and delay not
    negative, not both zero) returns once the loop bound exceeds [B].  It
    has run [k >= 1] whole cycles, also when [B < H + D]: the loop
    condition is tested between cycles only, so the trace is a sequence of
    whole cycles; and at least [B] has elapsed.  On the modeled clock,
    where every sleep returns exactly on time, the elapsed time is that of
    the [k] cycles, the total of the requested sleeps, and lies in
    [[B, B + (H + D))]. *)
Theorem perform_timed_clicks_budget fuel fd button B H D w st :
  0 < B -> 0 <= H -> 0 <= D -> 0 < H + D ->
  B < Z.of_nat fuel ->
  let r := perform_timed_clicks fuel fd button B H D w st in
  let elapsed := clock (snd r) - clock st in
  fst r = Ok tt
  /\ exists k,
       (1 <= k)%nat
       /\ actions_of (trace (snd r)) =
          actions_of (trace st) ++ timed_script k (to_uint16 button) H D
       /\ B <= elapsed
       /\ (exact_sleep w ->
           elapsed = Z.of_nat k * (H + D)
           /\ elapsed = slept (timed_script k (to_uint16 button) H D)
           /\ B <= elapsed < B + (H + D)).
Proof.
  intros HB HH HD HHD Hfuel r elapsed. subst elapsed r.
  destruct fuel as [|fuel]; [simpl in Hfuel; lia|].
  set (s1 := snd (when (debug_mode st) (cout (MsgDebugTimed B H D)) w st)).
  assert (E1 : when (debug_mode st) (cout (MsgDebugTimed B H D)) w st = (Ok tt, s1))
    by (subst s1; destruct (debug_mode st); reflexivity).
  assert (C1 : clock s1 = clock st) by (subst s1; destruct (debug_mode st); reflexivity).
  assert (A1 : actions_of (trace s1) = actions_of (trace st)).
  { subst s1; destruct (debug_mode st); [|reflexivity].
    simpl. rewrite actions_of_app. simpl. now rewrite app_nil_r. }
  destruct (timed_loop_run fuel (clock s1) fd button B H D w s1 HH HD HHD)
    as (s2 & k & E2 & A2 & C2 & L2 & _ & X2).
  { assert (0 <= Z.of_nat fuel * (H + D - 1)) by nia. lia. }
  assert (E : perform_timed_clicks (S fuel) fd button B H D w st = (Ok tt, s2)).
  { unfold perform_timed_clicks.
    unfold bind at 1. unfold get at 1.
    unfold bind at 1. rewrite E1.
    unfold bind at 1. unfold now at 1, get at 1. exact E2. }
  rewrite E. cbn [fst snd]. split; [reflexivity|].
  destruct L2 as (Hk & Hb); [lia|].
  exists k. rewrite A2, A1, <- C1. repeat split; try lia.
  - destruct (X2 H0) as (Ce & _). lia.
  - rewrite timed_script_slept. destruct (X2 H0) as (Ce & _). lia.
  - destruct (X2 H0) as (Ce & Ue). lia.
Qed.

Lemma perform_timed_clicks_budget_witness :
  fst (perform_timed_clicks 41 3 BTN_LEFT 40 50 100 ideal_world
         (initial_state ideal_world)) = Ok tt.
Proof.
  apply (perform_timed_clicks_budget 41 3 BTN_LEFT 40 50 100 ideal_world
           (initial_state ideal_world)); simpl; lia.
Defined.

(** ** Which events a call can add to the trace *)

Section Emits.

Variable P : event -> bool.

Lemma emits_nothing {A} (m : M A) :
  (forall w st, trace (snd (m w st)) = trace st) -> emits P m.
Proof. intros H w st. exists []. rewrite H, app_nil_r. auto. Qed.

Lemma emits_ret {A} (a : A) : emits P (ret a).
Proof. now apply emits_nothing. Qed.

Lemma emits_exit {A} c : emits P (@exit A c).
Proof. now apply emits_nothing. Qed.

Lemma emits_throw {A} e : emits P (@throw A e).
Proof. now apply emits_nothing. Qed.

Lemma emits_out_of_fuel {A} : emits P (@out_of_fuel A).
Proof. now apply emits_nothing. Qed.

Lemma emits_get {A} (f : state -> A) : emits P (get f).
Proof. now apply emits_nothing. Qed.

Lemma emits_set_debug_mode b : emits P (set_debug_mode b).
Proof. now apply emits_nothing. Qed.

Lemma emits_store_click_speed_ms v : emits P (store_click_speed_ms v).
Proof. now apply emits_nothing. Qed.

Lemma emits_one {A} (m : M A) :
  (forall w st, exists e, trace (snd (m w st)) = trace st ++ [e] /\ P e = true) ->
  emits P m.
Proof.
  intros H w st. destruct (H w st) as (e & -> & He).
  exists [e]. simpl. now rewrite He.
Qed.

Lemma emits_log e : P e = true -> emits P (log e).
Proof. intros He. apply emits_one. intros w st. now exists e. Qed.

Lemma emits_bind {A B} (m : M A) (k : A -> M B) :
  emits P m -> (forall a, emits P (k a)) -> emits P (bind m k).
Proof.
  intros Hm Hk w st. unfold bind.
  destruct (Hm w st) as (es & Hes & Pes).
  destruct (m w st) as [[a| | |] st1]; simpl in Hes; try (now exists es).
  destruct (Hk a w st1) as (es' & Hes' & Pes').
  exists (es ++ es'). rewrite Hes', Hes, app_assoc, forallb_app, Pes, Pes'. auto.
Qed.

Lemma emits_try_catch {A} (m : M A) (h : exn -> M A) :
  emits P m -> (forall e, emits P (h e)) -> emits P (try_catch m h).
Proof.
  intros Hm Hh w st. unfold try_catch.
  destruct (Hm w st) as (es & Hes & Pes).
  destruct (m w st) as [[a| |e|] st1]; simpl in Hes; try (now exists es).
  destruct (Hh e w st1) as (es' & Hes' & Pes').
  exists (es ++ es'). rewrite Hes', Hes, app_assoc, forallb_app, Pes, Pes'. auto.
Qed.

Lemma emits_when b (m : M unit) : emits P m -> emits P (when b m).
Proof. destruct b; [auto|]. intros _. apply emits_ret. Qed.

End Emits.

Lemma emits_weaken (P Q : event -> bool) {A} (m : M A) :
  (forall e, P e = true -> Q e = true) -> emits P m -> emits Q m.
Proof.
  intros HPQ Hm w st. destruct (Hm w st) as (es & Hes & Pes).
  exists es. split; [exact Hes|].
  rewrite forallb_forall in *. auto.
Qed.

Ltac emits_step :=
  first
    [ apply emits_bind; [|intros ?]
    | apply emits_ret | apply emits_exit | apply emits_throw | apply emits_get
    | apply emits_out_of_fuel
    | apply emits_set_debug_mode | apply emits_store_click_speed_ms
    | apply emits_when
    | apply emits_log; reflexivity
    | apply emits_one; intros ? ?; eexists; split; reflexivity ].

Ltac emits_auto := repeat emits_step.

Lemma emits_parse_duration s : emits front_event (parse_duration s).
Proof.
  unfold parse_duration, cerr.
  destruct (parse_duration_body s); emits_auto.
Qed.

Lemma emits_get_duration argv option : emits front_event (get_duration argv option).
Proof.
  induction argv as [|arg rest IH]; cbn [get_duration]; [emits_auto|].
  destruct rest as [|next rest']; [exact IH|].
  destruct (option =? arg)%string; [apply emits_parse_duration | exact IH].
Qed.

Lemma emits_get_count argv : emits front_event (get_count argv).
Proof.
  induction argv as [|arg rest IH]; cbn [get_count]; [emits_auto|].
  destruct (isdigit (front arg)); [|exact IH].
  unfold stoi_or_throw. destruct (stoi arg); emits_auto.
Qed.

(** The option loop advances by one or by two arguments: induction over
    the list needs the property for a list and for its tail together. *)
Lemma emits_main_options args : forall argv hold_ms duration_ms,
  emits front_event (main_options args argv hold_ms duration_ms).
Proof.
  assert (H : forall n args, (List.length args <= n)%nat ->
            forall argv hold_ms duration_ms,
              emits front_event (main_options args argv hold_ms duration_ms)).
  { induction n as [|n IH]; intros [|arg rest] Hlen argv hold_ms duration_ms;
      cbn [main_options]; try (emits_auto; fail); simpl in Hlen; try lia.
    assert (IHrest : forall h d, emits front_event (main_options rest argv h d))
      by (intros; apply IH; lia).
    destruct ((arg =? "-d") || (arg =? "--debug"))%string.
    { unfold cout. emits_auto. apply IHrest. }
    destruct rest as [|next rest']; [apply IHrest|].
    assert (IHrest' : forall h d, emits front_event (main_options rest' argv h d))
      by (intros; apply IH; simpl in Hlen; lia).
    destruct ((arg =? "-h") || (arg =? "--hold"))%string.
    { apply emits_bind; [apply emits_parse_duration|intros; apply IHrest']. }
    destruct ((arg =? "-cs") || (arg =? "--clickspeed"))%string.
    { apply emits_bind; [apply emits_parse_duration|intros].
      apply emits_bind; [emits_auto|intros; apply IHrest']. }
    destruct ((arg =? "-t") || (arg =? "--time"))%string.
    { apply emits_bind; [apply emits_get_duration|intros; apply IHrest]. }
    apply IHrest. }
  intros. eapply H. reflexivity.
Qed.

Lemma emits_setup_uinput_device : emits setup_event setup_uinput_device.
Proof.
  unfold setup_uinput_device, orelse, cerr, sys_close.
  apply emits_bind; [emits_auto|intros fd].
  destruct (fd <? 0); [emits_auto|].
  apply emits_bind.
  { apply emits_bind; [emits_auto|intros [|]]; [emits_auto|].
    apply emits_bind; [emits_auto|intros [|]]; emits_auto. }
  intros [|]; [emits_auto|].
  apply emits_bind; [emits_auto|intros n].
  destruct (negb (n =? sizeof_uinput_user_dev)); [emits_auto|].
  apply emits_bind; [emits_auto|intros r].
  destruct (r <? 0); emits_auto.
Qed.

Lemma emits_send_input_event fd type code value :
  emits click_event (send_input_event fd type code value).
Proof.
  unfold send_input_event, cerr, cout.
  apply emits_bind; [emits_auto|intros r].
  destruct (r <? 0); emits_auto.
Qed.

Lemma emits_send_event fd button action :
  emits click_event (send_event fd button action).
Proof.
  unfold send_event.
  apply emits_bind; [|intros]; apply emits_send_input_event.
Qed.

Lemma emits_sleep_ms ms : emits click_event (sleep_ms ms).
Proof. emits_auto. Qed.

Lemma emits_perform_clicks fd button count hold_ms speed_ms :
  emits click_event (perform_clicks fd button count hold_ms speed_ms).
Proof.
  unfold perform_clicks. generalize 0 as i.
  induction (Z.to_nat count) as [|n IH]; intros i; cbn [perform_clicks_from];
    [emits_auto|].
  apply emits_bind; [apply emits_send_event|intros].
  apply emits_bind; [apply emits_sleep_ms|intros].
  apply emits_bind; [apply emits_send_event|intros].
  apply emits_bind; [apply emits_when, emits_sleep_ms|intros].
  apply IH.
Qed.

Lemma emits_perform_timed_clicks fuel fd button duration_ms hold_ms speed_ms :
  emits click_event (perform_timed_clicks fuel fd button duration_ms hold_ms speed_ms).
Proof.
  unfold perform_timed_clicks, cout, now.
  apply emits_bind; [emits_auto|intros dbg].
  apply emits_bind; [emits_auto|intros _].
  apply emits_bind; [emits_auto|intros start].
  induction fuel as [|fuel IH]; cbn [timed_loop]; [emits_auto|].
  unfold now. apply emits_bind; [emits_auto|intros t].
  destruct (t - start <? duration_ms); [|emits_auto].
  apply emits_bind; [apply emits_send_event|intros].
  apply emits_bind; [apply emits_sleep_ms|intros].
  apply emits_bind; [apply emits_send_event|intros].
  apply emits_bind; [apply emits_sleep_ms|intros].
  apply IH.
Qed.

(** ** The two halves of [main] *)

Lemma main_help fuel argv w st :
  is_help_request argv = true ->
  main fuel argv w st = (Ok EXIT_FAILURE, emit (Stdout (MsgUsage (hd "" argv))) st).
Proof.
  destruct argv as [|p [|a rest]]; try reflexivity.
  cbn [is_help_request main]. intros ->. reflexivity.
Qed.

Lemma main_invalid_button fuel program_name arg1 rest w st :
  is_help_request (program_name :: arg1 :: rest) = false ->
  find_button BUTTONS (front arg1) = None ->
  main fuel (program_name :: arg1 :: rest) w st =
  (Ok EXIT_FAILURE, emit (Stderr (MsgInvalidButton (front arg1))) st).
Proof. cbn [is_help_request main]. intros -> ->. reflexivity. Qed.

Lemma main_split fuel program_name arg1 rest button w st :
  is_help_request (program_name :: arg1 :: rest) = false ->
  find_button BUTTONS (front arg1) = Some button ->
  main fuel (program_name :: arg1 :: rest) w st =
  (x <- front_end (program_name :: arg1 :: rest) rest ;;
   drive fuel button (fst x) (fst (snd x)) (snd (snd x))) w st.
Proof.
  cbn [is_help_request main]. intros -> ->.
  unfold front_end, drive, bind.
  destruct (get_count _ w st) as [[count| | |] s1]; try reflexivity.
  destruct (main_options _ _ _ _ w s1) as [[[h d]| | |] s2]; reflexivity.
Qed.

Lemma emits_front_end argv rest : emits front_event (front_end argv rest).
Proof.
  unfold front_end.
  apply emits_bind; [apply emits_get_count|intros].
  apply emits_bind; [apply emits_main_options|intros]. apply emits_ret.
Qed.

Lemma emits_drive fuel button count hold_ms duration_ms :
  emits run_event (drive fuel button count hold_ms duration_ms).
Proof.
  unfold drive, cerr, sys_close.
  apply emits_bind.
  { eapply emits_weaken; [|apply emits_setup_uinput_device].
    intros e He. unfold run_event. rewrite He. now destruct (front_event e). }
  intros fd. apply emits_bind.
  - apply emits_try_catch; [|intros; emits_auto].
    apply emits_bind; [|intros; emits_auto].
    eapply (emits_weaken click_event).
    { intros e He. unfold run_event. rewrite He.
      now destruct (front_event e), (setup_event e). }
    destruct (duration_ms >? 0); (apply emits_bind; [emits_auto|intros]).
    + apply emits_perform_timed_clicks.
    + apply emits_perform_clicks.
  - intros [|]; emits_auto.
Qed.

Lemma emits_main fuel argv :
  is_help_request argv = false -> emits run_event (main fuel argv).
Proof.
  intros Hh. destruct argv as [|p [|a rest]]; try discriminate.
  destruct (find_button BUTTONS (front a)) as [button|] eqn:Hb.
  - assert (E : emits run_event
                  (x <- front_end (p :: a :: rest) rest ;;
                   drive fuel button (fst x) (fst (snd x)) (snd (snd x)))).
    { apply emits_bind; [|intros; apply emits_drive].
      eapply emits_weaken; [|apply emits_front_end].
      intros e He. unfold run_event. now rewrite He. }
    intros w st. rewrite (main_split _ _ _ _ _ _ _ Hh Hb). apply E.
  - intros w st. rewrite (main_invalid_button _ _ _ _ _ _ Hh Hb).
    exists [Stderr (MsgInvalidButton (front a))]. auto.
Qed.

(** ** Help requests *)

(** C7. Invoked with no argument, or with [-h] or [--help] as first
    argument, the program prints the usage text, touches nothing else and
    returns [EXIT_FAILURE]; and whenever a run prints the usage text, under
    any arguments and any world, its status is [EXIT_FAILURE]: no help path
    ends in success. *)
Theorem help_exits_with_failure :
  (forall fuel program_name args w,
      args = [] \/ (exists rest, args = "-h" :: rest) \/ (exists rest, args = "--help" :: rest) ->
      fst (run fuel (program_name :: args) w) = Ok EXIT_FAILURE
      /\ trace (snd (run fuel (program_name :: args) w)) = [Stdout (MsgUsage program_name)])
  /\
  (forall fuel argv w name,
      In (Stdout (MsgUsage name)) (trace (snd (run fuel argv w))) ->
      fst (run fuel argv w) = Ok EXIT_FAILURE /\ EXIT_FAILURE <> EXIT_SUCCESS).
Proof.
  split.
  - intros fuel p args w Hargs. unfold run.
    rewrite main_help; [split; reflexivity|].
    destruct Hargs as [->|[(rest & ->)|(rest & ->)]]; reflexivity.
  - intros fuel argv w name Hin. unfold run in *.
    destruct (is_help_request argv) eqn:Hh.
    + rewrite main_help by exact Hh. split; [reflexivity|discriminate].
    + destruct (emits_main fuel argv Hh w (initial_state w)) as (es & Hes & Pes).
      rewrite Hes in Hin. simpl in Hin.
      rewrite forallb_forall in Pes. apply Pes in Hin. discriminate.
Qed.

Lemma help_exits_with_failure_witness :
  fst (run 0 ["mclick"; "--help"] ideal_world) = Ok EXIT_FAILURE
  /\ trace (snd (run 0 ["mclick"; "--help"] ideal_world)) = [Stdout (MsgUsage "mclick")].
Proof.
  apply (proj1 help_exits_with_failure 0%nat "mclick" ["--help"] ideal_world).
  right; right. exists []. reflexivity.
Defined.

Lemma fails_loudly_bind {A B} (m : M A) (k : A -> M B) :
  fails_loudly m -> (forall a, fails_loudly (k a)) -> fails_loudly (bind m k).
Proof.
  intros Hm Hk w st. unfold bind. specialize (Hm w st).
  destruct (m w st) as [[a| | |] s1]; simpl in *; auto. apply Hk.
Qed.

Lemma fails_loudly_parse_duration s : fails_loudly (parse_duration s).
Proof.
  intros w st. unfold parse_duration. now destruct (parse_duration_body s).
Qed.

Lemma fails_loudly_get_duration argv option : fails_loudly (get_duration argv option).
Proof.
  induction argv as [|arg rest IH]; cbn [get_duration]; [now intros w st|].
  destruct rest as [|next rest']; [exact IH|].
  destruct (option =? arg)%string; [apply fails_loudly_parse_duration | exact IH].
Qed.

Lemma fails_loudly_get_count argv : fails_loudly (get_count argv).
Proof.
  induction argv as [|arg rest IH]; cbn [get_count]; [now intros w st|].
  destruct (isdigit (front arg)); [|exact IH].
  intros w st. unfold stoi_or_throw. now destruct (stoi arg).
Qed.

Lemma fails_loudly_main_options args : forall argv hold_ms duration_ms,
  fails_loudly (main_options args argv hold_ms duration_ms).
Proof.
  assert (H : forall n args, (List.length args <= n)%nat ->
            forall argv hold_ms duration_ms,
              fails_loudly (main_options args argv hold_ms duration_ms)).
  { induction n as [|n IH]; intros [|arg rest] Hlen argv hold_ms duration_ms;
      cbn [main_options]; try (now intros w st); simpl in Hlen; try lia.
    assert (IHrest : forall h d, fails_loudly (main_options rest argv h d))
      by (intros; apply IH; lia).
    destruct ((arg =? "-d") || (arg =? "--debug"))%string.
    { apply fails_loudly_bind; [now intros w st|intros].
      apply fails_loudly_bind; [now intros w st|intros]. apply IHrest. }
    destruct rest as [|next rest']; [apply IHrest|].
    assert (IHrest' : forall h d, fails_loudly (main_options rest' argv h d))
      by (intros; apply IH; simpl in Hlen; lia).
    destruct ((arg =? "-h") || (arg =? "--hold"))%string.
    { apply fails_loudly_bind; [apply fails_loudly_parse_duration|intros; apply IHrest']. }
    destruct ((arg =? "-cs") || (arg =? "--clickspeed"))%string.
    { apply fails_loudly_bind; [apply fails_loudly_parse_duration|intros].
      apply fails_loudly_bind; [now intros w st|intros; apply IHrest']. }
    destruct ((arg =? "-t") || (arg =? "--time"))%string.
    { apply fails_loudly_bind; [apply fails_loudly_get_duration|intros; apply IHrest]. }
    apply IHrest. }
  intros. eapply H. reflexivity.
Qed.

Lemma fails_loudly_front_end argv rest : fails_loudly (front_end argv rest).
Proof.
  unfold front_end.
  apply fails_loudly_bind; [apply fails_loudly_get_count|intros].
  apply fails_loudly_bind; [apply fails_loudly_main_options|intros]. now intros w st.
Qed.

Lemma front_events_quiet es :
  forallb front_event es = true ->
  syscalls es = [] /\ shape es = [] /\ Forall (fun e => is_console e = true) es.
Proof.
  induction es as [|e es IH]; [auto|].
  simpl. intros H. apply andb_prop in H as (He & Hes).
  destruct (IH Hes) as (I1 & I2 & I3).
  destruct e as [| | | | | |m|m]; try discriminate; destruct m; try discriminate;
    unfold syscalls, shape in *; simpl; auto.
Qed.

(** When the front end does not return, [main] ends the same way and in
    the same state; only console lines were produced. *)
Lemma main_front_end_fails fuel program_name arg1 rest button w st :
  is_help_request (program_name :: arg1 :: rest) = false ->
  find_button BUTTONS (front arg1) = Some button ->
  (forall x, fst (front_end (program_name :: arg1 :: rest) rest w st) <> Ok x) ->
  exits_nonzero (fst (main fuel (program_name :: arg1 :: rest) w st))
  /\ exists es,
       trace (snd (main fuel (program_name :: arg1 :: rest) w st)) = trace st ++ es
       /\ forallb front_event es = true.
Proof.
  intros Hh Hb Hf. rewrite (main_split _ _ _ _ _ _ _ Hh Hb). unfold bind.
  pose proof (fails_loudly_front_end (program_name :: arg1 :: rest) rest w st) as L.
  pose proof (emits_front_end (program_name :: arg1 :: rest) rest w st) as E.
  destruct (front_end _ _ w st) as [[x|c|e|] s1]; cbn [fst snd] in *.
  - now destruct (Hf x).
  - split; [subst c; discriminate|exact E].
  - split; [exact I|exact E].
  - contradiction.
Qed.

(** ** Device session *)

(** Closes one failing branch of [setup_uinput_device]: the events of the
    branch are read off the goal. *)
Ltac setup_failed :=
  split; [reflexivity|];
  rewrite <- ?app_assoc; cbn [app];
  eexists; split; [reflexivity|];
  split; [reflexivity|];
  split; [reflexivity|];
  split;
  [ intros fd Hin; simpl in Hin;
    repeat (destruct Hin as [Hin|Hin]; [try discriminate; congruence|]);
    contradiction
  | intros Hop; first [reflexivity | match goal with H : (_ <? 0) = true |- _ =>
                                       apply Z.ltb_lt in H; lia end] ].

Lemma setup_uinput_device_fails w st :
  acquisition_fails w ->
  fst (setup_uinput_device w st) = Exit EXIT_FAILURE
  /\ exists es,
       trace (snd (setup_uinput_device w st)) = trace st ++ es
       /\ forallb setup_event es = true
       /\ existsb is_diagnostic es = true
       /\ (forall fd, In (SysOpen fd) es -> fd = open_result w)
       /\ (0 <= open_result w -> last es (SysOpen 0) = SysClose (open_result w)).
Proof.
  intros Hf.
  unfold setup_uinput_device, orelse, bind, sys_open, sys_ioctl, sys_write_dev,
    sys_close, cerr, log, ret, exit, emit. cbn [fst snd trace].
  assert (Hopen : open_result w < 0 \/ 0 <= open_result w) by lia.
  destruct (open_result w <? 0) eqn:H0; cbn [fst snd trace]; [setup_failed|].
  destruct (ioctl_result w (UI_SET_EVBIT EV_KEY) <? 0) eqn:H1;
    cbn [fst snd trace]; [setup_failed|].
  destruct (ioctl_result w (UI_SET_KEYBIT BTN_LEFT) <? 0) eqn:H2;
    cbn [fst snd trace]; [setup_failed|].
  destruct (ioctl_result w (UI_SET_KEYBIT BTN_RIGHT) <? 0) eqn:H3;
    cbn [fst snd trace]; [setup_failed|].
  destruct (write_dev_result w =? sizeof_uinput_user_dev) eqn:H4;
    cbn [negb fst snd trace]; [|setup_failed].
  destruct (ioctl_result w UI_DEV_CREATE <? 0) eqn:H5;
    cbn [fst snd trace]; [setup_failed|].
  exfalso.
  apply Z.ltb_ge in H0, H1, H2, H3, H5. apply Z.eqb_eq in H4.
  unfold acquisition_fails in Hf. lia.
Qed.

Lemma drive_setup_fails fuel button count hold_ms duration_ms w st :
  acquisition_fails w ->
  drive fuel button count hold_ms duration_ms w st = setup_uinput_device w st
  /\ fst (setup_uinput_device w st) = Exit EXIT_FAILURE.
Proof.
  intros Hf. destruct (setup_uinput_device_fails w st Hf) as (E & _).
  split; [|exact E]. unfold drive, bind.
  destruct (setup_uinput_device w st) as [[fd|c|e|] s1]; try discriminate E.
  reflexivity.
Qed.

Lemma setup_events_silent es : forallb setup_event es = true -> shape es = [].
Proof.
  induction es as [|e es IH]; [auto|].
  simpl. intros H. apply andb_prop in H as (He & Hes).
  unfold shape in *. simpl. rewrite (IH Hes).
  destruct e; try discriminate; reflexivity.
Qed.

Lemma front_events_no_open es fd :
  forallb front_event es = true -> ~ In (SysOpen fd) es.
Proof.
  intros H Hin. rewrite forallb_forall in H. apply H in Hin. discriminate.
Qed.

(** In a world where device acquisition fails, every run ends with a
    non-zero status and without a single [input_event] write; a run whose
    trace shows an [open] called [exit(EXIT_FAILURE)], printed a
    diagnostic of [setup_uinput_device] and closed the descriptor last. *)
Lemma acquisition_failure_runs fuel argv w :
  acquisition_fails w ->
  let r := run fuel argv w in
  exits_nonzero (fst r)
  /\ shape (trace (snd r)) = []
  /\ (forall fd, In (SysOpen fd) (trace (snd r)) ->
        fst r = Exit EXIT_FAILURE
        /\ (exists m, In (Stderr m) (trace (snd r)) /\ setup_event (Stderr m) = true)
        /\ (0 <= fd -> last (trace (snd r)) (SysOpen fd) = SysClose fd)).
Proof.
  intros Hf r. subst r. unfold run.
  destruct (is_help_request argv) eqn:Hh.
  { rewrite main_help by exact Hh. cbn.
    split; [discriminate|]. split; [reflexivity|].
    intros fd [H|[]]; discriminate. }
  destruct argv as [|p [|a rest]]; try discriminate.
  destruct (find_button BUTTONS (front a)) as [button|] eqn:Hb.
  2:{ rewrite (main_invalid_button _ _ _ _ _ _ Hh Hb). cbn.
      split; [discriminate|]. split; [reflexivity|].
      intros fd [H|[]]; discriminate. }
  set (st := initial_state w).
  destruct (fst (front_end (p :: a :: rest) rest w st)) as [x| | |] eqn:Hfe.
  - rewrite (main_split _ _ _ _ _ _ _ Hh Hb). unfold bind.
    pose proof (emits_front_end (p :: a :: rest) rest w st) as (es1 & E1 & P1).
    destruct (front_end _ _ w st) as [o s1]. cbn [fst snd] in *. subst o.
    destruct (drive_setup_fails fuel button (fst x) (fst (snd x)) (snd (snd x)) w s1 Hf)
      as (-> & E).
    destruct (setup_uinput_device_fails w s1 Hf) as (_ & es2 & E2 & P2 & D2 & O2 & C2).
    rewrite E, E2, E1. cbn [trace st initial_state app].
    destruct (front_events_quiet _ P1) as (_ & S1 & _).
    split; [discriminate|].
    split; [rewrite shape_app, S1, (setup_events_silent _ P2); reflexivity|].
    intros fd Hin. apply in_app_or in Hin as [Hin|Hin];
      [now apply front_events_no_open in Hin|].
    split; [reflexivity|]. split.
    + apply existsb_exists in D2 as (e & He & De).
      destruct e as [| | | | | |m|m]; try discriminate De.
      exists m. split; [apply in_or_app; now right|].
      rewrite forallb_forall in P2. now apply P2.
    + intros Hfd. rewrite (O2 _ Hin) in *.
      assert (es2 <> []) by (intros ->; contradiction).
      rewrite last_append by assumption.
      rewrite <- (C2 Hfd). destruct es2 as [|e0 es2]; [contradiction|].
      clear. revert e0. induction es2 as [|e1 es2 IH]; intros e0; [reflexivity|].
      change (last (e1 :: es2) (SysOpen (open_result w)) = last (e1 :: es2) (SysOpen 0)).
      apply IH.
  - destruct (main_front_end_fails fuel p a rest button w st Hh Hb) as (N & es & E & P).
    { intros x. rewrite Hfe. discriminate. }
    destruct (front_events_quiet _ P) as (_ & Sh & _).
    rewrite E. cbn [trace st initial_state app].
    split; [exact N|]. split; [exact Sh|].
    intros fd Hin. now apply front_events_no_open in Hin.
  - destruct (main_front_end_fails fuel p a rest button w st Hh Hb) as (N & es & E & P).
    { intros x. rewrite Hfe. discriminate. }
    destruct (front_events_quiet _ P) as (_ & Sh & _).
    rewrite E. cbn [trace st initial_state app].
    split; [exact N|]. split; [exact Sh|].
    intros fd Hin. now apply front_events_no_open in Hin.
  - pose proof (fails_loudly_front_end (p :: a :: rest) rest w st) as L.
    rewrite Hfe in L. contradiction.
Qed.


(** ** Numerals *)

Lemma isdigit_range c : isdigit c = true -> (48 <= N_of_ascii c <= 57)%N.
Proof.
  unfold isdigit. intros H. apply andb_prop in H as (H1 & H2).
  apply N.leb_le in H1, H2. lia.
Qed.

Lemma isdigit_not_space c : isdigit c = true -> isspace c = false.
Proof.
  intros H. apply isdigit_range in H. unfold isspace.
  destruct (N_of_ascii c <=? 13)%N eqn:E1; [apply N.leb_le in E1; lia|].
  destruct (N_of_ascii c =? 32)%N eqn:E2; [apply N.eqb_eq in E2; lia|].
  now rewrite andb_false_r.
Qed.

Lemma isdigit_not_sign c :
  isdigit c = true -> Ascii.eqb c "-" = false /\ Ascii.eqb c "+" = false.
Proof.
  intros H. split.
  - destruct (Ascii.eqb c "-") eqn:E; [|reflexivity].
    apply Ascii.eqb_eq in E. subst c. discriminate H.
  - destruct (Ascii.eqb c "+") eqn:E; [|reflexivity].
    apply Ascii.eqb_eq in E. subst c. discriminate H.
Qed.

Lemma digit_val_range c : isdigit c = true -> 0 <= digit_val c <= 9.
Proof. intros H. apply isdigit_range in H. unfold digit_val. lia. Qed.

Lemma read_digits_nonneg s : forall acc, 0 <= acc -> 0 <= read_digits acc s.
Proof.
  induction s as [|c s IH]; intros acc Hacc; cbn [read_digits]; [exact Hacc|].
  destruct (isdigit c) eqn:Hc; [|exact Hacc].
  apply IH. apply digit_val_range in Hc. lia.
Qed.

Lemma read_digits_app ds rest : forall acc,
  all_digits ds = true -> isdigit (front rest) = false ->
  read_digits acc (ds ++ rest) = read_digits acc ds.
Proof.
  induction ds as [|c ds IH]; intros acc Hds Hrest; cbn [append read_digits].
  - destruct rest as [|r rest]; [reflexivity|].
    cbn [front read_digits] in *. now rewrite Hrest.
  - cbn [all_digits] in Hds. apply andb_prop in Hds as (Hc & Hds).
    rewrite Hc. now apply IH.
Qed.

(** On an argument that starts with a digit, [stoi] converts the leading
    run of digits, and throws [out_of_range] when that is beyond
    [INT_MAX]. *)
Lemma stoi_digit_leading s :
  digit_leading s = true ->
  stoi s = if read_digits 0 s <=? INT_MAX then inr (read_digits 0 s)
           else inl out_of_range.
Proof.
  unfold digit_leading. destruct s as [|c s]; [discriminate|].
  cbn [front]. intros Hc. unfold stoi.
  cbn [skip_space]. rewrite (isdigit_not_space _ Hc).
  cbn [take_sign]. destruct (isdigit_not_sign _ Hc) as (-> & ->).
  cbn [front]. rewrite Hc. cbv zeta. unfold in_int.
  pose proof (read_digits_nonneg (String c s) 0 ltac:(lia)) as Hnn.
  replace (INT_MIN <=? read_digits 0 (String c s)) with true
    by (symmetry; apply Z.leb_le; unfold INT_MIN; lia).
  reflexivity.
Qed.

(** ** Repetition count *)




(** ** Duration strings *)

Lemma mem_char_digits c : mem_char c "0123456789" = isdigit c.
Proof. destruct c as [[] [] [] [] [] [] [] []]; reflexivity. Qed.

Lemma find_first_not_of_digits ds suffix :
  all_digits ds = true ->
  suffix <> "" -> isdigit (front suffix) = false ->
  find_first_not_of (ds ++ suffix) "0123456789" = Some (String.length ds).
Proof.
  intros Hds Hne Hs. induction ds as [|c ds IH]; cbn [append String.length].
  - destruct suffix as [|x suffix]; [contradiction|].
    cbn [find_first_not_of front] in *. now rewrite mem_char_digits, Hs.
  - cbn [all_digits] in Hds. apply andb_prop in Hds as (Hc & Hds).
    cbn [find_first_not_of]. now rewrite mem_char_digits, Hc, (IH Hds).
Qed.

Lemma get_after ds suffix :
  suffix <> "" -> String.get (String.length ds) (ds ++ suffix) = Some (front suffix).
Proof.
  intros Hne. induction ds as [|c ds IH]; cbn [append String.length String.get].
  - destruct suffix; [contradiction|reflexivity].
  - exact IH.
Qed.

Lemma wrap_int_small z : INT_MIN <= z <= INT_MAX -> wrap_int z = z.
Proof.
  unfold wrap_int, INT_MIN, INT_MAX. intros H.
  rewrite Z.mod_small; lia.
Qed.

(** What [parse_duration] does with digits followed by something that is
    not a digit. *)
Lemma parse_duration_digits_suffix ds suffix :
  all_digits ds = true ->
  0 < read_digits 0 ds <= INT_MAX ->
  suffix <> "" -> isdigit (front suffix) = false ->
  parse_duration (ds ++ suffix) =
  ret (if Ascii.eqb (front suffix) "s" then wrap_int (read_digits 0 ds * 1000)
       else read_digits 0 ds).
Proof.
  intros Hds Hv Hne Hs.
  assert (Hlead : digit_leading (ds ++ suffix) = true).
  { destruct ds as [|c ds]; [simpl in Hv; lia|].
    cbn [all_digits] in Hds. apply andb_prop in Hds as (Hc & _). exact Hc. }
  unfold parse_duration, parse_duration_body.
  rewrite (stoi_digit_leading _ Hlead), (read_digits_app _ _ _ Hds Hs).
  replace (read_digits 0 ds <=? INT_MAX) with true by (symmetry; apply Z.leb_le; lia).
  replace (read_digits 0 ds <=? 0) with false by (symmetry; apply Z.leb_gt; lia).
  rewrite (find_first_not_of_digits _ _ Hds Hne Hs).
  unfold seconds_suffix. rewrite (get_after _ _ Hne).
  now destruct (Ascii.eqb (front suffix) "s").
Qed.

(** C9, as amended.  Digits that denote a positive value up to [INT_MAX],
    followed by a non-empty suffix: when the first character of the suffix
    is not ['s'] the call returns the value of the digits as milliseconds,
    whatever the suffix is, and prints nothing; when it is ['s'], whatever
    follows it, the value is multiplied by 1000. *)
Theorem parse_duration_lenient_suffix ds suffix w st :
  all_digits ds = true ->
  0 < read_digits 0 ds <= INT_MAX ->
  suffix <> "" -> isdigit (front suffix) = false ->
  (front suffix <> "s"%char ->
   parse_duration (ds ++ suffix) w st = (Ok (read_digits 0 ds), st))
  /\ (front suffix = "s"%char ->
      parse_duration (ds ++ suffix) w st = (Ok (wrap_int (read_digits 0 ds * 1000)), st)
      /\ (read_digits 0 ds * 1000 <= INT_MAX ->
          wrap_int (read_digits 0 ds * 1000) = read_digits 0 ds * 1000)).
Proof.
  intros Hds Hv Hne Hs.
  rewrite (parse_duration_digits_suffix _ _ Hds Hv Hne Hs).
  split.
  - intros Hc. apply Ascii.eqb_neq in Hc. now rewrite Hc.
  - intros Hc. apply Ascii.eqb_eq in Hc. rewrite Hc. split; [reflexivity|].
    intros Hr. apply wrap_int_small. unfold INT_MIN. lia.
Qed.

Lemma parse_duration_lenient_suffix_witness :
  parse_duration "10min" ideal_world (initial_state ideal_world) =
  (Ok 10, initial_state ideal_world).
Proof.
  apply (parse_duration_lenient_suffix "10" "min" ideal_world (initial_state ideal_world)).
  - reflexivity.
  - unfold INT_MAX. simpl. lia.
  - discriminate.
  - reflexivity.
  - discriminate.
Defined.

(** C9 as stated fails.  ["5sec"] is the positive integer 5 followed by the
    non-empty suffix ["sec"], which is not ["s"]; the call returns 5000, not
    5.  ["2147483648x"] is a positive integer followed by ["x"]; the call
    rejects it. *)
Lemma parse_duration_suffix_counterexample :
  ~ (forall ds suffix w st,
       all_digits ds = true -> 0 < read_digits 0 ds ->
       suffix <> "" -> suffix <> "s" -> isdigit (front suffix) = false ->
       parse_duration (ds ++ suffix) w st = (Ok (read_digits 0 ds), st))
  /\ parse_duration "5sec" ideal_world (initial_state ideal_world) =
     (Ok 5000, initial_state ideal_world)
  /\ fst (parse_duration "2147483648x" ideal_world (initial_state ideal_world)) =
     Exit EXIT_FAILURE.
Proof.
  split; [|split; reflexivity].
  intros H.
  specialize (H "5" "sec" ideal_world (initial_state ideal_world)).
  assert (E : parse_duration ("5" ++ "sec") ideal_world (initial_state ideal_world) =
              (Ok 5000, initial_state ideal_world)) by reflexivity.
  rewrite E in H.
  assert (C : (Ok 5000, initial_state ideal_world) =
              (Ok (read_digits 0 "5"), initial_state ideal_world)).
  { apply H; try reflexivity; discriminate. }
  discriminate C.
Qed.

(** ** Rejected durations *)

Lemma parse_duration_invalid s w st :
  invalid_duration s = true ->
  parse_duration s w st = (Exit EXIT_FAILURE, emit (Stderr (MsgInvalidDuration s)) st).
Proof.
  unfold invalid_duration, parse_duration, parse_duration_body.
  destruct (stoi s) as [e|v]; [reflexivity|]. now intros ->.
Qed.

Lemma duration_option_cases s :
  is_duration_option s = true ->
  In s ["-h"; "--hold"; "-cs"; "--clickspeed"; "-t"; "--time"].
Proof.
  unfold is_duration_option, is_hold_option, is_speed_option, is_time_option.
  intros H. repeat (apply orb_prop in H as [H|H]);
    try (apply String.eqb_eq in H; subst s; simpl; tauto).
Qed.

(** A duration option is not [-d], and is itself no valid duration. *)
Lemma duration_option_facts s :
  is_duration_option s = true ->
  ((s =? "-d") || (s =? "--debug"))%string = false /\ invalid_duration s = true.
Proof.
  intros H. apply duration_option_cases in H. simpl in H.
  repeat (destruct H as [H|H]; [subst s; split; reflexivity|]). contradiction.
Qed.

Lemma diagnosed_pure {A} (m : M A) :
  (forall w st, exists a s, m w st = (Ok a, s) /\ trace s = trace st) -> diagnosed m.
Proof.
  intros H w st. destruct (H w st) as (a & s & -> & E). exists [].
  cbn [fst snd]. rewrite app_nil_r. auto.
Qed.

Ltac diagnosed_pure := apply diagnosed_pure; intros; eexists; eexists; split; reflexivity.

Lemma diagnosed_bind {A B} (m : M A) (k : A -> M B) :
  diagnosed m -> (forall a, diagnosed (k a)) -> diagnosed (bind m k).
Proof.
  intros Hm Hk w st. unfold bind.
  destruct (Hm w st) as (es & Hes & Pes).
  destruct (m w st) as [[a| | |] st1]; cbn [fst snd] in *; try (now exists es).
  destruct (Hk a w st1) as (es' & Hes' & Pes').
  exists (es ++ es'). rewrite Hes', Hes, app_assoc. split; [reflexivity|].
  destruct (fst (k a w st1)); auto.
  destruct Pes' as (s & Hs). exists s.
  rewrite last_append; [exact Hs|]. intros ->. discriminate Hs.
Qed.

Lemma diagnosed_parse_duration s : diagnosed (parse_duration s).
Proof.
  intros w st. unfold parse_duration.
  destruct (parse_duration_body s).
  - exists [Stderr (MsgInvalidDuration s)]. split; [reflexivity|]. now exists s.
  - exists []. now rewrite app_nil_r.
Qed.

Lemma diagnosed_get_duration argv option : diagnosed (get_duration argv option).
Proof.
  induction argv as [|arg rest IH]; cbn [get_duration].
  - diagnosed_pure.
  - destruct rest as [|next rest']; [exact IH|].
    destruct (option =? arg)%string; [apply diagnosed_parse_duration | exact IH].
Qed.

Lemma diagnosed_get_count argv : diagnosed (get_count argv).
Proof.
  induction argv as [|arg rest IH]; cbn [get_count].
  - diagnosed_pure.
  - destruct (isdigit (front arg)) eqn:Hd; [|exact IH].
    intros w st. exists []. rewrite app_nil_r. unfold stoi_or_throw.
    rewrite (stoi_digit_leading arg Hd).
    now destruct (read_digits 0 arg <=? INT_MAX).
Qed.

Lemma diagnosed_main_options args : forall argv hold_ms duration_ms,
  diagnosed (main_options args argv hold_ms duration_ms).
Proof.
  assert (H : forall n args, (List.length args <= n)%nat ->
            forall argv hold_ms duration_ms,
              diagnosed (main_options args argv hold_ms duration_ms)).
  { induction n as [|n IH]; intros [|arg rest] Hlen argv hold_ms duration_ms;
      cbn [main_options]; try (diagnosed_pure);
      simpl in Hlen; try lia.
    assert (IHrest : forall h d, diagnosed (main_options rest argv h d))
      by (intros; apply IH; lia).
    destruct ((arg =? "-d") || (arg =? "--debug"))%string.
    { apply diagnosed_bind; [diagnosed_pure|intros].
      apply diagnosed_bind; [|intros; apply IHrest].
      intros w st. exists [Stdout MsgDebugEnabled]. now split. }
    destruct rest as [|next rest']; [apply IHrest|].
    assert (IHrest' : forall h d, diagnosed (main_options rest' argv h d))
      by (intros; apply IH; simpl in Hlen; lia).
    destruct ((arg =? "-h") || (arg =? "--hold"))%string.
    { apply diagnosed_bind; [apply diagnosed_parse_duration|intros; apply IHrest']. }
    destruct ((arg =? "-cs") || (arg =? "--clickspeed"))%string.
    { apply diagnosed_bind; [apply diagnosed_parse_duration|intros].
      apply diagnosed_bind; [diagnosed_pure|].
      intros; apply IHrest'. }
    destruct ((arg =? "-t") || (arg =? "--time"))%string.
    { apply diagnosed_bind; [apply diagnosed_get_duration|intros; apply IHrest]. }
    apply IHrest. }
  intros. eapply H. reflexivity.
Qed.

Lemma diagnosed_front_end argv rest : diagnosed (front_end argv rest).
Proof.
  unfold front_end.
  apply diagnosed_bind; [apply diagnosed_get_count|intros].
  apply diagnosed_bind; [apply diagnosed_main_options|intros].
  diagnosed_pure.
Qed.

(** [get_duration] finds the first occurrence of the option. *)
Lemma get_duration_first pre option value post :
  ~ In option pre ->
  get_duration (pre ++ option :: value :: post) option = parse_duration value.
Proof.
  intros Hpre. induction pre as [|a pre IH]; cbn [app get_duration].
  - now rewrite String.eqb_refl.
  - assert (IH' : get_duration (pre ++ option :: value :: post) option =
                  parse_duration value) by (apply IH; intros H; apply Hpre; now right).
    destruct (pre ++ option :: value :: post) as [|next tl] eqn:E;
      [now destruct pre|].
    destruct (option =? a)%string eqn:Ea; [|exact IH'].
    apply String.eqb_eq in Ea. subst a. exfalso. apply Hpre. now left.
Qed.

Lemma bind_not_ok {A B} (m : M A) (k : A -> M B) w st :
  (forall a s, m w st = (Ok a, s) -> forall x, fst (k a w s) <> Ok x) ->
  forall x, fst (bind m k w st) <> Ok x.
Proof.
  intros H x. unfold bind.
  destruct (m w st) as [[a| | |] s] eqn:E; cbn [fst]; try discriminate.
  now apply (H a s).
Qed.

(** The option loop does not get past a duration option whose value is
    invalid, wherever in the remaining arguments the option stands. *)
Lemma main_options_rejects option value post argv :
  is_duration_option option = true ->
  invalid_duration value = true ->
  (is_time_option option = true -> get_duration argv option = parse_duration value) ->
  forall pre hold_ms duration_ms w st x,
    fst (main_options (pre ++ option :: value :: post) argv hold_ms duration_ms w st)
    <> Ok x.
Proof.
  intros Hopt Hval Htime.
  destruct (duration_option_facts _ Hopt) as (Hnd & Hinv).
  assert (H : forall n pre, (List.length pre <= n)%nat ->
            forall hold_ms duration_ms w st x,
              fst (main_options (pre ++ option :: value :: post) argv
                     hold_ms duration_ms w st) <> Ok x).
  { induction n as [|n IH]; intros [|a pre] Hlen hold_ms duration_ms w st;
      simpl in Hlen; try lia; cbn [app main_options].
    - (* the option is the current argument *)
      rewrite Hnd.
      unfold is_duration_option, is_hold_option, is_speed_option, is_time_option in *.
      destruct ((option =? "-h") || (option =? "--hold"))%string.
      { intros x. unfold bind. now rewrite parse_duration_invalid. }
      destruct ((option =? "-cs") || (option =? "--clickspeed"))%string.
      { intros x. unfold bind. now rewrite parse_duration_invalid. }
      destruct ((option =? "-t") || (option =? "--time"))%string; [|discriminate].
      intros x. unfold bind. rewrite Htime by reflexivity.
      now rewrite parse_duration_invalid.
    - rewrite Hnd.
      unfold is_duration_option, is_hold_option, is_speed_option, is_time_option in *.
      destruct ((option =? "-h") || (option =? "--hold"))%string.
      { intros x. unfold bind. now rewrite parse_duration_invalid. }
      destruct ((option =? "-cs") || (option =? "--clickspeed"))%string.
      { intros x. unfold bind. now rewrite parse_duration_invalid. }
      destruct ((option =? "-t") || (option =? "--time"))%string; [|discriminate].
      intros x. unfold bind. rewrite Htime by reflexivity.
      now rewrite parse_duration_invalid.
    - assert (IHpre : forall h d w st x,
                fst (main_options (pre ++ option :: value :: post) argv h d w st) <> Ok x)
        by (intros; apply IH; lia).
      destruct ((a =? "-d") || (a =? "--debug"))%string.
      { apply bind_not_ok. intros _ s1 _. apply bind_not_ok. intros _ s2 _. apply IHpre. }
      destruct pre as [|next pre'].
      + (* the option follows directly: an option that takes a value eats it *)
        cbn [app].
        destruct ((a =? "-h") || (a =? "--hold"))%string.
        { intros x. unfold bind. now rewrite parse_duration_invalid. }
        destruct ((a =? "-cs") || (a =? "--clickspeed"))%string.
        { intros x. unfold bind. now rewrite parse_duration_invalid. }
        destruct ((a =? "-t") || (a =? "--time"))%string.
        { apply bind_not_ok. intros d s1 _. apply (IHpre hold_ms d w s1). }
        apply (IHpre hold_ms duration_ms w st).
      + cbn [app].
        assert (IHpre' : forall h d w st x,
                  fst (main_options (pre' ++ option :: value :: post) argv h d w st)
                  <> Ok x)
          by (intros; apply IH; simpl in Hlen; lia).
        destruct ((a =? "-h") || (a =? "--hold"))%string.
        { apply bind_not_ok. intros h s1 _. apply IHpre'. }
        destruct ((a =? "-cs") || (a =? "--clickspeed"))%string.
        { apply bind_not_ok. intros v s1 _. apply bind_not_ok. intros _ s2 _.
          apply IHpre'. }
        destruct ((a =? "-t") || (a =? "--time"))%string.
        { apply bind_not_ok. intros d s1 _.
          apply (IHpre hold_ms d w s1). }
        apply (IHpre hold_ms duration_ms w st). }
  intros pre. eapply H. reflexivity.
Qed.

(** C6, as amended.  Take any run among whose arguments a duration option
    ([-h], [--hold], [-cs], [--clickspeed], [-t], [--time]) is followed by
    a value that is zero, negative or non-numeric; for [-t] and [--time]
    let no earlier argument be that same string.  Then the process ends
    with a non-zero status and no system call was made (the device was
    never opened, nothing was emitted); the last thing the run printed is
    the usage text, the invalid-button diagnostic or an invalid-duration
    diagnostic, unless it was aborted by the [out_of_range] that an
    over-long count argument raises. *)
Theorem invalid_duration_rejected fuel program_name before option value post w :
  is_duration_option option = true ->
  invalid_duration value = true ->
  (is_time_option option = true -> ~ In option (program_name :: before)) ->
  let r := run fuel (program_name :: before ++ option :: value :: post) w in
  exits_nonzero (fst r)
  /\ syscalls (trace (snd r)) = []
  /\ (fst r = Uncaught out_of_range
      \/ is_rejection (last (trace (snd r)) (SysClose 0)) = true).
Proof.
  intros Hopt Hval Hfirst r. subst r. unfold run.
  set (argv := program_name :: before ++ option :: value :: post).
  set (st := initial_state w).
  destruct (is_help_request argv) eqn:Hh.
  { rewrite main_help by exact Hh. cbn.
    split; [discriminate|]. split; [reflexivity|]. right. reflexivity. }
  destruct before as [|button pre].
  { (* the option stands where the button is expected *)
    unfold argv. cbn [app].
    rewrite main_invalid_button; [| exact Hh |].
    - cbn. split; [discriminate|]. split; [reflexivity|]. right. reflexivity.
    - apply duration_option_cases in Hopt. simpl in Hopt.
      repeat (destruct Hopt as [Hopt|Hopt]; [subst option; reflexivity|]).
      contradiction. }
  set (rest := pre ++ option :: value :: post).
  change argv with (program_name :: button :: rest) in *. clear argv.
  set (argv := program_name :: button :: rest) in *.
  destruct (find_button BUTTONS (front button)) as [b|] eqn:Hb.
  2:{ unfold argv. rewrite (main_invalid_button _ _ _ _ _ _ Hh Hb). cbn.
      split; [discriminate|]. split; [reflexivity|]. right. reflexivity. }
  assert (Hno : forall x, fst (front_end argv rest w st) <> Ok x).
  { unfold front_end. apply bind_not_ok. intros count s1 _.
    apply bind_not_ok. intros opts s2 E2 x.
    apply (f_equal fst) in E2. cbn [fst] in E2. exfalso. revert E2. unfold rest.
    apply main_options_rejects; auto.
    intros Ht. unfold argv, rest.
    change (program_name :: button :: pre ++ option :: value :: post)
      with ((program_name :: button :: pre) ++ option :: value :: post).
    apply get_duration_first. now apply Hfirst. }
  unfold argv. rewrite (main_split _ _ _ _ _ _ _ Hh Hb). fold argv. unfold bind.
  pose proof (fails_loudly_front_end argv rest w st) as L.
  pose proof (emits_front_end argv rest w st) as (es & E & P).
  pose proof (diagnosed_front_end argv rest w st) as (es' & E' & D).
  rewrite E in E'. apply app_inv_head in E'. subst es'.
  destruct (front_events_quiet _ P) as (Q & _ & _).
  destruct (front_end argv rest w st) as [[x|c|e|] s1]; cbn [fst snd] in *.
  - now destruct (Hno x).
  - rewrite E. cbn [st initial_state trace app].
    split; [subst c; discriminate|]. split; [exact Q|]. right.
    destruct D as (s & ->). reflexivity.
  - rewrite E. cbn [st initial_state trace app].
    split; [exact I|]. split; [exact Q|]. left. now subst e.
  - contradiction.
Qed.

Lemma invalid_duration_rejected_witness :
  exits_nonzero (fst (run 10 ["mclick"; "l"; "3"; "-d"; "--hold"; "-5"; "-t"; "1s"]
                        ideal_world))
  /\ syscalls (trace (snd (run 10 ["mclick"; "l"; "3"; "-d"; "--hold"; "-5"; "-t"; "1s"]
                             ideal_world))) = [].
Proof.
  pose proof (invalid_duration_rejected 10 "mclick" ["l"; "3"; "-d"] "--hold" "-5"
                ["-t"; "1s"] ideal_world) as P.
  cbv zeta in P. destruct P as (A & B & _).
  - reflexivity.
  - reflexivity.
  - discriminate.
  - split; [exact A | exact B].
Defined.

(** The values the specification names are invalid in this sense. *)
Example invalid_duration_examples :
  invalid_duration "0" = true /\ invalid_duration "-5" = true
  /\ invalid_duration "abc" = true /\ invalid_duration "" = true
  /\ invalid_duration "0s" = true /\ invalid_duration "5" = false.
Proof. repeat split; reflexivity. Qed.

(** C6 as stated fails: [get_duration] looks for the first [-t] of the
    command line, so the value of a second [-t] is never parsed.  Here the
    second [-t] has the value ["0"]; the run opens the device, clicks for
    the five milliseconds of the first and returns [EXIT_SUCCESS]. *)
Lemma invalid_duration_counterexample :
  let argv := "mclick" :: ["l"; "-t"; "5"] ++ "-t" :: "0" :: [] in
  is_duration_option "-t" = true
  /\ invalid_duration "0" = true
  /\ fst (run 10 argv ideal_world) = Ok EXIT_SUCCESS
  /\ In (SysOpen 3) (trace (snd (run 10 argv ideal_world)))
  /\ shape (trace (snd (run 10 argv ideal_world))) =
     [(EV_KEY, BTN_LEFT, 1); (EV_SYN, SYN_REPORT, 0);
      (EV_KEY, BTN_LEFT, 0); (EV_SYN, SYN_REPORT, 0)]
  /\ ~ (forall fuel program_name before option value post w,
          is_duration_option option = true ->
          invalid_duration value = true ->
          exits_nonzero
            (fst (run fuel (program_name :: before ++ option :: value :: post) w))).
Proof.
  cbv zeta. repeat split; try reflexivity.
  - vm_compute. tauto.
  - intros H.
    specialize (H 10%nat "mclick" ["l"; "-t"; "5"] "-t" "0" [] ideal_world
                  eq_refl eq_refl).
    vm_compute in H. now apply H.
Qed.

(** ** Two runs side by side *)

Section Indifference.

(** [timing = true]: the two runs also see the same clock. *)
Variable timing : bool.

Lemma indifferent_ret {A} (a : A) : indifferent timing (ret a).
Proof. now intros w1 w2 st1 st2 Hw Hs. Qed.

Lemma indifferent_exit {A} c : indifferent timing (@exit A c).
Proof. now intros w1 w2 st1 st2 Hw Hs. Qed.

Lemma indifferent_throw {A} e : indifferent timing (@throw A e).
Proof. now intros w1 w2 st1 st2 Hw Hs. Qed.

Lemma indifferent_out_of_fuel {A} : indifferent timing (@out_of_fuel A).
Proof. now intros w1 w2 st1 st2 Hw Hs. Qed.

(** Sequencing, with a fact [Q] known of the value handed over. *)
Lemma indifferent_bind_post {A B} (Q : A -> Prop) (m : M A) (k : A -> M B) :
  indifferent timing m ->
  (forall w st a s, m w st = (Ok a, s) -> Q a) ->
  (forall a, Q a -> indifferent timing (k a)) ->
  indifferent timing (bind m k).
Proof.
  intros Hm HQ Hk w1 w2 st1 st2 Hw Hs. unfold bind.
  destruct (Hm w1 w2 st1 st2 Hw Hs) as (Hr & Hs').
  pose proof (HQ w1 st1) as HQ1.
  destruct (m w1 st1) as [[a1| | |] s1], (m w2 st2) as [[a2| | |] s2];
    cbn [fst snd] in *; try discriminate; try (split; [congruence|assumption]).
  injection Hr as <-. apply Hk; auto. now apply (HQ1 a1 s1).
Qed.

Lemma indifferent_bind {A B} (m : M A) (k : A -> M B) :
  indifferent timing m -> (forall a, indifferent timing (k a)) -> indifferent timing (bind m k).
Proof.
  intros Hm Hk. apply (indifferent_bind_post (fun _ => True)); auto.
Qed.

Lemma indifferent_try_catch {A} (m : M A) (h : exn -> M A) :
  indifferent timing m -> (forall e, indifferent timing (h e)) -> indifferent timing (try_catch m h).
Proof.
  intros Hm Hh w1 w2 st1 st2 Hw Hs. unfold try_catch.
  destruct (Hm w1 w2 st1 st2 Hw Hs) as (Hr & Hs').
  destruct (m w1 st1) as [[a1| |e1|] s1], (m w2 st2) as [[a2| |e2|] s2];
    cbn [fst snd] in *; try discriminate; try (split; [congruence|assumption]).
  injection Hr as <-. now apply Hh.
Qed.

Lemma indifferent_when b (m : M unit) : indifferent timing m -> indifferent timing (when b m).
Proof. destruct b; [auto|]. intros _. apply indifferent_ret. Qed.

Lemma alike_emit e st1 st2 : alike timing st1 st2 -> alike timing (emit e st1) (emit e st2).
Proof.
  intros (H1 & H2 & H3 & H4). repeat split; cbn; auto; try (now apply H4).
  now rewrite !shape_app, H3.
Qed.

Lemma indifferent_log e : indifferent timing (log e).
Proof.
  intros w1 w2 st1 st2 Hw Hs. split; [reflexivity|]. now apply alike_emit.
Qed.

Lemma indifferent_get_debug_mode : indifferent timing (get debug_mode).
Proof.
  intros w1 w2 st1 st2 Hw Hs. split; [|exact Hs].
  destruct Hs as (H1 & _). cbn. now rewrite H1.
Qed.

Lemma indifferent_get_click_speed_ms : indifferent timing (get click_speed_ms).
Proof.
  intros w1 w2 st1 st2 Hw Hs. split; [|exact Hs].
  destruct Hs as (_ & H2 & _). cbn. now rewrite H2.
Qed.

Lemma indifferent_set_debug_mode b : indifferent timing (set_debug_mode b).
Proof.
  intros w1 w2 st1 st2 Hw (H1 & H2 & H3 & H4). repeat split; cbn; auto; now apply H4.
Qed.

Lemma indifferent_store_click_speed_ms v : indifferent timing (store_click_speed_ms v).
Proof.
  intros w1 w2 st1 st2 Hw (H1 & H2 & H3 & H4). repeat split; cbn; auto; now apply H4.
Qed.

Lemma indifferent_sys_open : indifferent timing sys_open.
Proof.
  intros w1 w2 st1 st2 ((Ho & _) & _) Hs. unfold sys_open. rewrite Ho.
  split; [reflexivity|]. now apply alike_emit.
Qed.

Lemma indifferent_sys_ioctl fd req : indifferent timing (sys_ioctl fd req).
Proof.
  intros w1 w2 st1 st2 ((_ & Hi & _) & _) Hs. unfold sys_ioctl. rewrite Hi.
  split; [reflexivity|]. now apply alike_emit.
Qed.

Lemma indifferent_sys_write_dev fd : indifferent timing (sys_write_dev fd).
Proof.
  intros w1 w2 st1 st2 ((_ & _ & Hd) & _) Hs. unfold sys_write_dev. rewrite Hd.
  split; [reflexivity|]. now apply alike_emit.
Qed.

Lemma indifferent_sleep_ms ms : indifferent timing (sleep_ms ms).
Proof.
  intros w1 w2 st1 st2 (_ & Hc) (H1 & H2 & H3 & H4).
  split; [reflexivity|]. repeat split; cbn; auto.
  - now rewrite !shape_app, H3.
  - destruct (H4 H) as (C & S). destruct (Hc H) as (_ & O). now rewrite C, S, O.
  - destruct (H4 H) as (_ & S). now rewrite S.
Qed.

(** The heart of the matter: whatever [write] answers, the caller gets
    nothing back and the same record has been handed over. *)
Lemma indifferent_send_input_event fd type code value :
  indifferent timing (send_input_event fd type code value).
Proof.
  intros w1 w2 st1 st2 Hw (H1 & H2 & H3 & H4).
  destruct (send_input_event_run fd type code value w1 st1) as (c1 & -> & C1 & _).
  destruct (send_input_event_run fd type code value w2 st2) as (c2 & -> & C2 & _).
  assert (S : forall c, Forall (fun e => is_console e = true) c -> shape c = []).
  { induction 1 as [|e c He _ IH]; [reflexivity|].
    unfold shape in *. cbn. rewrite IH. now destruct e. }
  split; [reflexivity|]. repeat split; cbn [snd debug_mode click_speed_ms clock
    sleeps_done trace]; auto; try (now apply H4).
  rewrite !shape_app, H3.
  change (shape (?e :: ?c)) with (wire_of e ++ shape c).
  now rewrite (S _ C1), (S _ C2).
Qed.

Lemma indifferent_send_event fd button action :
  indifferent timing (send_event fd button action).
Proof.
  unfold send_event.
  apply indifferent_bind; [|intros]; apply indifferent_send_input_event.
Qed.

Lemma indifferent_perform_clicks fd button count hold_ms speed_ms :
  indifferent timing (perform_clicks fd button count hold_ms speed_ms).
Proof.
  unfold perform_clicks. generalize 0 as i.
  induction (Z.to_nat count) as [|n IH]; intros i; cbn [perform_clicks_from];
    [apply indifferent_ret|].
  apply indifferent_bind; [apply indifferent_send_event|intros].
  apply indifferent_bind; [apply indifferent_sleep_ms|intros].
  apply indifferent_bind; [apply indifferent_send_event|intros].
  apply indifferent_bind; [apply indifferent_when, indifferent_sleep_ms|intros].
  apply IH.
Qed.

(** Reading the clock is the one step that needs the clocks to agree. *)
Lemma indifferent_now : timing = true -> indifferent timing now.
Proof.
  intros Ht w1 w2 st1 st2 Hw Hs. split; [|exact Hs].
  destruct Hs as (_ & _ & _ & H4). destruct (H4 Ht) as (C & _).
  cbn. now rewrite C.
Qed.

Lemma indifferent_perform_timed_clicks fuel fd button duration_ms hold_ms speed_ms :
  timing = true ->
  indifferent timing (perform_timed_clicks fuel fd button duration_ms hold_ms speed_ms).
Proof.
  intros Ht. unfold perform_timed_clicks.
  apply indifferent_bind; [apply indifferent_get_debug_mode|intros dbg].
  apply indifferent_bind; [apply indifferent_when, indifferent_log|intros _].
  apply indifferent_bind; [now apply indifferent_now|intros start].
  induction fuel as [|fuel IH]; cbn [timed_loop]; [apply indifferent_out_of_fuel|].
  apply indifferent_bind; [now apply indifferent_now|intros t].
  destruct (t - start <? duration_ms); [|apply indifferent_ret].
  apply indifferent_bind; [apply indifferent_send_event|intros].
  apply indifferent_bind; [apply indifferent_sleep_ms|intros].
  apply indifferent_bind; [apply indifferent_send_event|intros].
  apply indifferent_bind; [apply indifferent_sleep_ms|intros].
  apply IH.
Qed.

Lemma indifferent_setup_uinput_device : indifferent timing setup_uinput_device.
Proof.
  unfold setup_uinput_device, orelse, cerr, sys_close.
  apply indifferent_bind; [apply indifferent_sys_open|intros fd].
  destruct (fd <? 0).
  { apply indifferent_bind; [apply indifferent_log|intros]. apply indifferent_exit. }
  assert (Hio : forall req,
             indifferent timing (r <- sys_ioctl fd req ;; ret (r <? 0))).
  { intros. apply indifferent_bind; [apply indifferent_sys_ioctl|intros].
    apply indifferent_ret. }
  assert (Hfail : forall msg,
             indifferent timing (log (Stderr msg) ;; log (SysClose fd) ;;
                          @exit Z EXIT_FAILURE)).
  { intros. apply indifferent_bind; [apply indifferent_log|intros].
    apply indifferent_bind; [apply indifferent_log|intros]. apply indifferent_exit. }
  apply indifferent_bind.
  { apply indifferent_bind; [apply Hio|intros [|]]; [apply indifferent_ret|].
    apply indifferent_bind; [apply Hio|intros [|]]; [apply indifferent_ret|].
    apply Hio. }
  intros [|]; [apply Hfail|].
  apply indifferent_bind; [apply indifferent_sys_write_dev|intros n].
  destruct (negb (n =? sizeof_uinput_user_dev)); [apply Hfail|].
  apply indifferent_bind; [apply indifferent_sys_ioctl|intros r].
  destruct (r <? 0); [apply Hfail|apply indifferent_ret].
Qed.

Lemma indifferent_parse_duration s : indifferent timing (parse_duration s).
Proof.
  unfold parse_duration, cerr.
  destruct (parse_duration_body s); [|apply indifferent_ret].
  apply indifferent_bind; [apply indifferent_log|intros]. apply indifferent_exit.
Qed.

Lemma indifferent_get_duration argv option : indifferent timing (get_duration argv option).
Proof.
  induction argv as [|arg rest IH]; cbn [get_duration]; [apply indifferent_ret|].
  destruct rest as [|next rest']; [exact IH|].
  destruct (option =? arg)%string; [apply indifferent_parse_duration | exact IH].
Qed.

Lemma indifferent_get_count argv : indifferent timing (get_count argv).
Proof.
  induction argv as [|arg rest IH]; cbn [get_count]; [apply indifferent_ret|].
  destruct (isdigit (front arg)); [|exact IH].
  unfold stoi_or_throw.
  destruct (stoi arg); [apply indifferent_throw|apply indifferent_ret].
Qed.

Lemma indifferent_main_options args : forall argv hold_ms duration_ms,
  indifferent timing (main_options args argv hold_ms duration_ms).
Proof.
  assert (H : forall n args, (List.length args <= n)%nat ->
            forall argv hold_ms duration_ms,
              indifferent timing (main_options args argv hold_ms duration_ms)).
  { induction n as [|n IH]; intros [|arg rest] Hlen argv hold_ms duration_ms;
      cbn [main_options]; try apply indifferent_ret; simpl in Hlen; try lia.
    assert (IHrest : forall h d, indifferent timing (main_options rest argv h d))
      by (intros; apply IH; lia).
    destruct ((arg =? "-d") || (arg =? "--debug"))%string.
    { apply indifferent_bind; [apply indifferent_set_debug_mode|intros].
      apply indifferent_bind; [apply indifferent_log|intros]. apply IHrest. }
    destruct rest as [|next rest']; [apply IHrest|].
    assert (IHrest' : forall h d, indifferent timing (main_options rest' argv h d))
      by (intros; apply IH; simpl in Hlen; lia).
    destruct ((arg =? "-h") || (arg =? "--hold"))%string.
    { apply indifferent_bind; [apply indifferent_parse_duration|intros; apply IHrest']. }
    destruct ((arg =? "-cs") || (arg =? "--clickspeed"))%string.
    { apply indifferent_bind; [apply indifferent_parse_duration|intros].
      apply indifferent_bind; [apply indifferent_store_click_speed_ms|].
      intros; apply IHrest'. }
    destruct ((arg =? "-t") || (arg =? "--time"))%string.
    { apply indifferent_bind; [apply indifferent_get_duration|intros; apply IHrest]. }
    apply IHrest. }
  intros. eapply H. reflexivity.
Qed.

Lemma indifferent_front_end argv rest : indifferent timing (front_end argv rest).
Proof.
  unfold front_end.
  apply indifferent_bind; [apply indifferent_get_count|intros].
  apply indifferent_bind; [apply indifferent_main_options|intros].
  apply indifferent_ret.
Qed.

(** The driver half: in timed mode the clocks must agree. *)
Lemma indifferent_drive fuel button count hold_ms duration_ms :
  timing = true \/ duration_ms <= 0 ->
  indifferent timing (drive fuel button count hold_ms duration_ms).
Proof.
  intros Hmode. unfold drive, cerr, sys_close.
  apply indifferent_bind; [apply indifferent_setup_uinput_device|intros fd].
  apply indifferent_bind.
  - apply indifferent_try_catch.
    + apply indifferent_bind; [|intros; apply indifferent_ret].
      destruct (duration_ms >? 0) eqn:Hd.
      * destruct Hmode as [Ht|Hle]; [|apply Z.gtb_lt in Hd; lia].
        apply indifferent_bind; [apply indifferent_get_click_speed_ms|intros].
        now apply indifferent_perform_timed_clicks.
      * apply indifferent_bind; [apply indifferent_get_click_speed_ms|intros].
        apply indifferent_perform_clicks.
    + intros. apply indifferent_bind; [apply indifferent_log|intros].
      apply indifferent_ret.
  - intros [|]; (apply indifferent_bind; [apply indifferent_log|intros]);
      apply indifferent_ret.
Qed.

End Indifference.

(** Without [-t] and [--time] the option loop leaves [duration_ms] as it
    found it. *)
Lemma main_options_keeps_duration args : forall argv hold_ms duration_ms w st x s,
  Forall (fun a => is_time_option a = false) args ->
  main_options args argv hold_ms duration_ms w st = (Ok x, s) ->
  snd x = duration_ms.
Proof.
  assert (H : forall n args, (List.length args <= n)%nat ->
            forall argv hold_ms duration_ms w st x s,
              Forall (fun a => is_time_option a = false) args ->
              main_options args argv hold_ms duration_ms w st = (Ok x, s) ->
              snd x = duration_ms).
  { induction n as [|n IH]; intros [|arg rest] Hlen argv hold_ms duration_ms w st x s Hno;
      cbn [main_options]; simpl in Hlen; try lia;
      try (intros E; injection E as <- _; reflexivity).
    inversion Hno as [|? ? Harg Hrest]; subst.
    unfold is_time_option in Harg.
    destruct ((arg =? "-d") || (arg =? "--debug"))%string.
    { unfold bind, set_debug_mode, cout, log. apply IH; [lia|exact Hrest]. }
    destruct rest as [|next rest'].
    { apply IH; [simpl; lia|exact Hrest]. }
    inversion Hrest as [|? ? _ Hrest']; subst.
    destruct ((arg =? "-h") || (arg =? "--hold"))%string.
    { unfold bind at 1. destruct (parse_duration next w st) as [[h| | |] s1];
        try discriminate. apply IH; [simpl in Hlen; lia|exact Hrest']. }
    destruct ((arg =? "-cs") || (arg =? "--clickspeed"))%string.
    { unfold bind at 1. destruct (parse_duration next w st) as [[v| | |] s1];
        try discriminate. unfold bind, store_click_speed_ms.
      apply IH; [simpl in Hlen; lia|exact Hrest']. }
    rewrite Harg. apply IH; [lia|exact Hrest]. }
  intros. eapply H; eauto.
Qed.

Lemma has_option_false argv option :
  has_option argv option = false -> Forall (fun a => (a =? option)%string = false) argv.
Proof.
  induction argv as [|a argv IH]; [constructor|].
  cbn [has_option]. destruct (a =? option)%string eqn:E; [discriminate|].
  intros H. constructor; auto.
Qed.

Lemma no_time_option_forall argv :
  no_time_option argv -> Forall (fun a => is_time_option a = false) argv.
Proof.
  intros (H1 & H2). apply has_option_false in H1, H2.
  rewrite Forall_forall in *. intros a Ha. unfold is_time_option.
  now rewrite (H1 a Ha), (H2 a Ha).
Qed.

Lemma indifferent_main timing fuel argv :
  timing = true \/ no_time_option argv ->
  indifferent timing (main fuel argv).
Proof.
  intros Hmode w1 w2 st1 st2 Hw Hs.
  destruct (is_help_request argv) eqn:Hh.
  { rewrite !main_help by exact Hh. split; [reflexivity|]. now apply alike_emit. }
  destruct argv as [|p [|a rest]]; try discriminate.
  destruct (find_button BUTTONS (front a)) as [button|] eqn:Hb.
  2:{ rewrite !(main_invalid_button _ _ _ _ _ _ Hh Hb).
      split; [reflexivity|]. now apply alike_emit. }
  rewrite !(main_split _ _ _ _ _ _ _ Hh Hb).
  revert w1 w2 st1 st2 Hw Hs.
  apply (indifferent_bind_post timing
           (fun x => timing = true \/ snd (snd x) <= 0)).
  - apply indifferent_front_end.
  - intros w st x s E. destruct Hmode as [Ht|Hno]; [now left|right].
    unfold front_end, bind in E.
    destruct (get_count (p :: a :: rest) w st) as [[count| | |] s1]; try discriminate.
    destruct (main_options rest (p :: a :: rest) DEFAULT_HOLD_MS 0 w s1)
      as [[opts| | |] s2] eqn:Eo; try discriminate.
    injection E as <- _. cbn [snd].
    apply main_options_keeps_duration in Eo; [lia|].
    apply no_time_option_forall in Hno.
    inversion Hno as [|? ? _ Hno']; subst. inversion Hno'; subst. assumption.
  - intros x Hx. now apply indifferent_drive.
Qed.

Lemma alike_initial timing w1 w2 :
  alike_worlds timing w1 w2 -> alike timing (initial_state w1) (initial_state w2).
Proof.
  intros (_ & Hc). repeat split; auto; cbn; now destruct (Hc H).
Qed.

(** C8, as amended.  Two invocations with the same arguments, in worlds
    that treat device acquisition alike: when no argument is [-t] or
    [--time] (bounded-count mode), or when the clocks of the two worlds
    behave alike, both end with the same status and hand the same sequence
    of (type, code, value) records to [write], whatever the individual
    writes answer and whatever the time stamps are. *)
Theorem same_arguments_same_shape fuel argv w1 w2 :
  same_device w1 w2 ->
  no_time_option argv \/ same_clock w1 w2 ->
  shape (trace (snd (run fuel argv w1))) = shape (trace (snd (run fuel argv w2)))
  /\ fst (run fuel argv w1) = fst (run fuel argv w2).
Proof.
  intros Hd [Hno|Hc]; unfold run.
  - assert (Hw : alike_worlds false w1 w2) by (split; [exact Hd|discriminate]).
    destruct (indifferent_main false fuel argv (or_intror Hno) w1 w2 _ _ Hw
                (alike_initial _ _ _ Hw)) as (R & _ & _ & S & _).
    now split.
  - assert (Hw : alike_worlds true w1 w2) by (split; [exact Hd|auto]).
    destruct (indifferent_main true fuel argv (or_introl eq_refl) w1 w2 _ _ Hw
                (alike_initial _ _ _ Hw)) as (R & _ & _ & S & _).
    now split.
Qed.

Lemma same_arguments_same_shape_witness :
  shape (trace (snd (run 0 ["mclick"; "r"; "2"; "-h"; "10"] ideal_world))) =
  shape (trace (snd (run 0 ["mclick"; "r"; "2"; "-h"; "10"] sluggish_world))).
Proof.
  apply (same_arguments_same_shape 0 ["mclick"; "r"; "2"; "-h"; "10"]
           ideal_world sluggish_world).
  - repeat split.
  - left. split; reflexivity.
Defined.

(** C8 as stated fails in timed mode: the number of cycles depends on the
    clock.  With a budget of 101 ms and 25 ms of hold and of delay, exact
    sleeps give three cycles (100 < 101 after the second); sleeps that
    return three milliseconds late give two. *)
Lemma same_arguments_shape_counterexample :
  let argv := ["mclick"; "l"; "-t"; "101"; "-h"; "25"; "-cs"; "25"] in
  same_device ideal_world late_world
  /\ List.length (shape (trace (snd (run 10 argv ideal_world)))) = 12%nat
  /\ List.length (shape (trace (snd (run 10 argv late_world)))) = 8%nat
  /\ ~ (forall fuel argv w1 w2,
          same_device w1 w2 ->
          shape (trace (snd (run fuel argv w1))) =
          shape (trace (snd (run fuel argv w2)))).
Proof.
  cbv zeta. split; [repeat split|]. split; [reflexivity|]. split; [reflexivity|].
  intros H.
  specialize (H 10%nat ["mclick"; "l"; "-t"; "101"; "-h"; "25"; "-cs"; "25"]
                ideal_world late_world).
  assert (D : same_device ideal_world late_world) by (repeat split).
  apply H in D. apply (f_equal (@List.length _)) in D.
  vm_compute in D. discriminate D.
Qed.

(** ** Failed writes *)

Lemma perform_clicks_from_returns n : forall i fd button count hold_ms speed_ms w st,
  fst (perform_clicks_from n i fd button count hold_ms speed_ms w st) = Ok tt.
Proof.
  induction n as [|n IH]; intros; [reflexivity|].
  cbn [perform_clicks_from]. unfold bind at 1.
  destruct (send_event_run fd button 1 w st) as (s1 & -> & _).
  unfold bind at 1. cbn [sleep_ms]. unfold bind at 1.
  match goal with |- context [send_event fd button 0 w ?s] =>
    destruct (send_event_run fd button 0 w s) as (s3 & -> & _) end.
  unfold bind at 1.
  destruct (i <? count - 1); cbn [when sleep_ms ret]; apply IH.
Qed.

Lemma timed_loop_returns fuel : forall start fd button B H D w st,
  completes tt (fst (timed_loop fuel start fd button B H D w st)).
Proof.
  induction fuel as [|fuel IH]; intros; [now right|].
  rewrite timed_loop_step. unfold bind at 1. unfold now at 1, get at 1.
  destruct (clock st - start <? B); [|now left].
  unfold bind at 1.
  destruct (send_event_run fd button 1 w st) as (s1 & -> & _).
  unfold bind at 1. cbn [sleep_ms]. unfold bind at 1.
  match goal with |- context [send_event fd button 0 w ?s] =>
    destruct (send_event_run fd button 0 w s) as (s3 & -> & _) end.
  unfold bind at 1. cbn [sleep_ms]. apply IH.
Qed.

Lemma setup_uinput_device_outcome w st :
  match fst (setup_uinput_device w st) with
  | Ok _ => True
  | Exit c => c = EXIT_FAILURE
  | _ => False
  end.
Proof.
  unfold setup_uinput_device, orelse, bind, sys_open, sys_ioctl, sys_write_dev,
    sys_close, cerr, log, ret, exit, emit. cbn [fst snd trace].
  destruct (open_result w <? 0); cbn [fst]; [reflexivity|].
  destruct (ioctl_result w (UI_SET_EVBIT EV_KEY) <? 0); cbn [fst]; [reflexivity|].
  destruct (ioctl_result w (UI_SET_KEYBIT BTN_LEFT) <? 0); cbn [fst]; [reflexivity|].
  destruct (ioctl_result w (UI_SET_KEYBIT BTN_RIGHT) <? 0); cbn [fst]; [reflexivity|].
  destruct (write_dev_result w =? sizeof_uinput_user_dev); cbn [negb fst];
    [|reflexivity].
  destruct (ioctl_result w UI_DEV_CREATE <? 0); cbn [fst]; [reflexivity|exact I].
Qed.

Lemma drive_outcome fuel button count hold_ms duration_ms w st :
  drive_post st (drive fuel button count hold_ms duration_ms w st).
Proof.
  unfold drive. unfold bind at 1.
  pose proof (setup_uinput_device_outcome w st) as O.
  pose proof (emits_setup_uinput_device w st) as E.
  destruct (setup_uinput_device w st) as [[fd|c|e|] s1]; cbn [fst snd] in *;
    try contradiction.
  2:{ right. subst c. split; [reflexivity|exact E]. }
  left.
  set (clicks := if duration_ms >? 0 then _ else _).
  assert (C : completes tt (fst (clicks w s1))).
  { subst clicks. destruct (duration_ms >? 0); unfold bind at 1; unfold get at 1.
    - unfold perform_timed_clicks. unfold bind at 1. unfold get at 1.
      unfold bind at 1.
      destruct (debug_mode s1); cbn [when cout log ret]; unfold bind at 1;
        unfold now at 1, get at 1; apply timed_loop_returns.
    - left. apply perform_clicks_from_returns. }
  destruct (clicks w s1) as [[[]| | |] s2] eqn:Ec; cbn [fst] in C;
    try (destruct C; discriminate);
    unfold bind, try_catch; rewrite Ec; [left|right]; reflexivity.
Qed.

(** C3, as amended.  A failed [write] of an event, key-class or not, is
    reported on the error stream and nothing more: [send_input_event]
    returns to its caller; the run hands the same records to [write] and
    ends with the same status as in the world where every write succeeds;
    and a run that attempted any emission ends in [EXIT_SUCCESS] (when the
    loop bound of the model is not hit). *)
Theorem emission_failure_not_fatal :
  (forall fd type code value w st,
      write_event_result w (writes_done st) < 0 ->
      fst (send_input_event fd type code value w st) = Ok tt
      /\ trace (snd (send_input_event fd type code value w st)) =
         trace st ++
         [SysWriteEvent fd (clock st) type code value
            (write_event_result w (writes_done st));
          Stderr MsgSendFailed])
  /\ (forall fuel argv w,
        fst (run fuel argv w) = fst (run fuel argv (all_writes_succeed w))
        /\ shape (trace (snd (run fuel argv w))) =
           shape (trace (snd (run fuel argv (all_writes_succeed w)))))
  /\ (forall fuel argv w,
        shape (trace (snd (run fuel argv w))) <> [] ->
        fst (run fuel argv w) = Ok EXIT_SUCCESS \/ fst (run fuel argv w) = OutOfFuel).
Proof.
  split; [|split].
  - intros fd type code value w st Hr.
    destruct (send_input_event_run fd type code value w st) as (c & -> & _ & Hc).
    rewrite (Hc Hr). now split.
  - intros fuel argv w. unfold run.
    assert (Hw : alike_worlds true w (all_writes_succeed w)) by (repeat split).
    destruct (indifferent_main true fuel argv (or_introl eq_refl) w _ _ _ Hw
                (alike_initial _ _ _ Hw)) as (R & _ & _ & S & _).
    now split.
  - intros fuel argv w. unfold run. set (st := initial_state w).
    destruct (is_help_request argv) eqn:Hh.
    { rewrite main_help by exact Hh. cbn. intros H. now destruct H. }
    destruct argv as [|p [|a rest]]; try discriminate.
    destruct (find_button BUTTONS (front a)) as [button|] eqn:Hb.
    2:{ rewrite (main_invalid_button _ _ _ _ _ _ Hh Hb). cbn. intros H. now destruct H. }
    rewrite (main_split _ _ _ _ _ _ _ Hh Hb). unfold bind.
    pose proof (emits_front_end (p :: a :: rest) rest w st) as (es & E & P).
    destruct (front_events_quiet _ P) as (_ & Q & _).
    destruct (front_end (p :: a :: rest) rest w st) as [[x|c|e|] s1];
      cbn [fst snd] in *;
      try (rewrite E; cbn [st initial_state trace app]; intros H; now destruct H).
    destruct (drive_outcome fuel button (fst x) (fst (snd x)) (snd (snd x)) w s1)
      as [Good|(_ & es' & E' & P')]; [intros _; exact Good|].
    rewrite E', E. cbn [st initial_state trace app].
    rewrite shape_app, Q, (setup_events_silent _ P'). intros H. now destruct H.
Qed.

Lemma emission_failure_not_fatal_witness :
  fst (run 0 ["mclick"; "l"; "2"] failing_writes_world) = Ok EXIT_SUCCESS
  \/ fst (run 0 ["mclick"; "l"; "2"] failing_writes_world) = OutOfFuel.
Proof.
  apply (proj2 (proj2 emission_failure_not_fatal) 0%nat ["mclick"; "l"; "2"]
           failing_writes_world).
  vm_compute. discriminate.
Defined.

(** C3 as stated fails: with every write failing, a two-click run still
    attempts all eight writes, reports each failure, closes the device and
    returns [EXIT_SUCCESS]. *)
Lemma emission_failure_counterexample :
  let r := run 0 ["mclick"; "l"; "2"] failing_writes_world in
  fst r = Ok EXIT_SUCCESS
  /\ In (SysWriteEvent 3 0 EV_KEY BTN_LEFT 1 (-1)) (trace (snd r))
  /\ shape (trace (snd r)) =
     [(EV_KEY, BTN_LEFT, 1); (EV_SYN, SYN_REPORT, 0);
      (EV_KEY, BTN_LEFT, 0); (EV_SYN, SYN_REPORT, 0);
      (EV_KEY, BTN_LEFT, 1); (EV_SYN, SYN_REPORT, 0);
      (EV_KEY, BTN_LEFT, 0); (EV_SYN, SYN_REPORT, 0)]
  /\ ~ (forall fuel argv w fd time code value result,
          In (SysWriteEvent fd time EV_KEY code value result)
             (trace (snd (run fuel argv w))) ->
          result < 0 ->
          exits_nonzero (fst (run fuel argv w))).
Proof.
  cbv zeta. split; [reflexivity|]. split; [vm_compute; tauto|]. split; [reflexivity|].
  intros H.
  specialize (H 0%nat ["mclick"; "l"; "2"] failing_writes_world 3 0 BTN_LEFT 1 (-1)).
  assert (X : exits_nonzero (fst (run 0 ["mclick"; "l"; "2"] failing_writes_world))).
  { apply H; [vm_compute; tauto|lia]. }
  vm_compute in X. now apply X.
Qed.

(** * Further properties of the code *)

(** ** Looking options up *)

(** X3. [has_option] answers whether the option is one of the arguments,
    [argv[0]] included. *)
Theorem has_option_iff_member argv option :
  has_option argv option = true <-> In option argv.
Proof.
  induction argv as [|a argv IH]; cbn [has_option In].
  - split; [discriminate|contradiction].
  - destruct (a =? option)%string eqn:E.
    + apply String.eqb_eq in E. split; auto.
    + apply String.eqb_neq in E. rewrite IH. split; [auto|].
      intros [H|H]; [contradiction|exact H].
Qed.

Lemma has_option_iff_member_witness :
  has_option ["mclick"; "l"; "3"; "--debug"] "--debug" = true.
Proof.
  apply (proj2 (has_option_iff_member ["mclick"; "l"; "3"; "--debug"] "--debug")).
  simpl. tauto.
Defined.

Lemma get_duration_absent argv option :
  ~ In option (removelast argv) -> get_duration argv option = ret 0.
Proof.
  induction argv as [|a rest IH]; [reflexivity|].
  intros Hno. cbn [get_duration].
  destruct rest as [|next tl]; [reflexivity|].
  change (removelast (a :: next :: tl)) with (a :: removelast (next :: tl)) in Hno.
  destruct (option =? a)%string eqn:E.
  - apply String.eqb_eq in E. subst a. exfalso. apply Hno. now left.
  - apply IH. intros H. apply Hno. now right.
Qed.

(** X4. [get_duration] parses the argument that follows the first
    occurrence of the option; when the option is absent, or stands only
    as the very last argument, it returns 0 and does nothing: no
    diagnostic, no exit. *)
Theorem get_duration_lookup :
  (forall argv option w st,
      ~ In option (removelast argv) ->
      get_duration argv option w st = (Ok 0, st))
  /\ (forall pre option value post,
        ~ In option pre ->
        get_duration (pre ++ option :: value :: post) option = parse_duration value).
Proof.
  split.
  - intros argv option w st H. now rewrite get_duration_absent.
  - intros. now apply get_duration_first.
Qed.

Lemma get_duration_lookup_witness :
  get_duration ["mclick"; "l"; "3"; "-t"] "-t" ideal_world (initial_state ideal_world) =
  (Ok 0, initial_state ideal_world).
Proof.
  apply (proj1 get_duration_lookup ["mclick"; "l"; "3"; "-t"] "-t").
  simpl. intros [H|[H|[H|H]]]; try discriminate H. contradiction.
Defined.

(** ** What [parse_duration] accepts *)

Lemma stoi_in_int s v : stoi s = inr v -> INT_MIN <= v <= INT_MAX.
Proof.
  unfold stoi. destruct (take_sign (skip_space s)) as [neg body].
  destruct (isdigit (front body)); [|discriminate].
  cbv zeta. destruct (in_int _) eqn:E; [|discriminate].
  intros H. injection H as <-. unfold in_int in E.
  apply andb_prop in E as (E1 & E2). apply Z.leb_le in E1, E2. lia.
Qed.

Lemma find_first_not_of_all_digits ds :
  all_digits ds = true -> find_first_not_of ds "0123456789" = None.
Proof.
  induction ds as [|c ds IH]; [reflexivity|].
  cbn [all_digits find_first_not_of]. intros H. apply andb_prop in H as (Hc & Hds).
  now rewrite mem_char_digits, Hc, (IH Hds).
Qed.

(** X5. A string of digits only, denoting a positive value up to
    [INT_MAX] (leading zeros allowed), is returned as that many
    milliseconds; nothing is printed. *)
Theorem parse_duration_plain_digits ds w st :
  all_digits ds = true ->
  0 < read_digits 0 ds <= INT_MAX ->
  parse_duration ds w st = (Ok (read_digits 0 ds), st).
Proof.
  intros Hds Hv.
  assert (Hlead : digit_leading ds = true).
  { destruct ds as [|c ds]; [simpl in Hv; lia|].
    cbn [all_digits] in Hds. apply andb_prop in Hds as (Hc & _). exact Hc. }
  unfold parse_duration, parse_duration_body.
  rewrite (stoi_digit_leading _ Hlead).
  replace (read_digits 0 ds <=? INT_MAX) with true by (symmetry; apply Z.leb_le; lia).
  replace (read_digits 0 ds <=? 0) with false by (symmetry; apply Z.leb_gt; lia).
  now rewrite (find_first_not_of_all_digits _ Hds).
Qed.

Lemma parse_duration_plain_digits_witness :
  parse_duration "0500" ideal_world (initial_state ideal_world) =
  (Ok 500, initial_state ideal_world).
Proof.
  apply (parse_duration_plain_digits "0500"); [reflexivity|].
  unfold INT_MAX. simpl. lia.
Defined.

(** X6. The seconds suffix is honoured only when the string starts with
    a digit: the test of line 160 looks at the first character that is not
    a digit, which for a signed or blank-led number is the sign or the
    blank.  So on such input whatever [parse_duration] returns is the
    value [stoi] read, in milliseconds; ["+5s"] is 5 ms. *)
Theorem parse_duration_unscaled_without_leading_digit s :
  isdigit (front s) = false ->
  parse_duration_body s =
  match stoi s with
  | inr v => if v <=? 0 then inl invalid_argument else inr v
  | inl e => inl e
  end.
Proof.
  intros Hd. unfold parse_duration_body.
  destruct s as [|c s]; [reflexivity|].
  cbn [front] in Hd. cbn [find_first_not_of].
  rewrite mem_char_digits, Hd. unfold seconds_suffix. cbn [String.get].
  destruct (Ascii.eqb c "s") eqn:Ec.
  - apply Ascii.eqb_eq in Ec. subst c. reflexivity.
  - destruct (stoi (String c s)) as [e|v]; [reflexivity|].
    now destruct (v <=? 0).
Qed.

Lemma parse_duration_unscaled_without_leading_digit_witness :
  parse_duration_body "+5s" = inr 5.
Proof.
  rewrite (parse_duration_unscaled_without_leading_digit "+5s"); reflexivity.
Defined.

Lemma skip_space_front s : isspace (front s) = false -> skip_space s = s.
Proof. destruct s as [|c s]; [reflexivity|]. cbn [front skip_space]. now intros ->. Qed.

(** X7. A string whose first character is not a digit, white space or a
    sign, the empty string included, is rejected: the invalid-duration
    diagnostic is printed and [exit(EXIT_FAILURE)] is called. *)
Theorem parse_duration_rejects_non_numeric s w st :
  may_start_number (front s) = false ->
  parse_duration s w st = (Exit EXIT_FAILURE, emit (Stderr (MsgInvalidDuration s)) st).
Proof.
  unfold may_start_number. intros H.
  apply orb_false_elim in H as (H & Hplus).
  apply orb_false_elim in H as (H & Hminus).
  apply orb_false_elim in H as (Hd & Hs).
  apply parse_duration_invalid. unfold invalid_duration, stoi.
  rewrite (skip_space_front _ Hs).
  destruct s as [|c s]; [reflexivity|].
  cbn [front] in *. cbn [take_sign]. rewrite Hminus, Hplus. cbn [front].
  now rewrite Hd.
Qed.

Lemma parse_duration_rejects_non_numeric_witness :
  parse_duration "" ideal_world (initial_state ideal_world) =
  (Exit EXIT_FAILURE,
   emit (Stderr (MsgInvalidDuration "")) (initial_state ideal_world)).
Proof. apply (parse_duration_rejects_non_numeric ""). reflexivity. Defined.

(** X8. Whenever [parse_duration] returns, it has printed nothing, and
    the result is the positive value [stoi] read or that value times 1000
    (as an [int]); it is positive as long as the value does not exceed
    2147483, the largest number of seconds whose milliseconds fit
    [int]. *)
Theorem parse_duration_returns_positive s w st v st' :
  parse_duration s w st = (Ok v, st') ->
  st' = st
  /\ exists value,
       stoi s = inr value
       /\ 0 < value <= INT_MAX
       /\ (v = value \/ v = wrap_int (value * 1000))
       /\ (value <= 2147483 -> 0 < v).
Proof.
  unfold parse_duration, parse_duration_body.
  destruct (stoi s) as [e|value] eqn:Es; [discriminate|].
  pose proof (stoi_in_int _ _ Es) as Hr.
  destruct (value <=? 0) eqn:Ev; [discriminate|]. apply Z.leb_gt in Ev.
  destruct (seconds_suffix s _); intros H; injection H as <- <-;
    (split; [reflexivity|]); exists value; repeat split; auto; try lia.
  intros Hs. rewrite wrap_int_small; unfold INT_MIN, INT_MAX; lia.
Qed.

Lemma parse_duration_returns_positive_witness :
  exists value, stoi "2s" = inr value /\ 0 < value <= INT_MAX.
Proof.
  destruct (parse_duration_returns_positive "2s" ideal_world
              (initial_state ideal_world) 2000 (initial_state ideal_world) eq_refl)
    as (_ & value & Hs & Hv & _).
  exists value. split; [exact Hs | exact Hv].
Defined.

(** ** The repetition count *)

(** X9. [get_count] prints nothing and never calls [exit]; the count it
    returns is between 0 and [INT_MAX] (a negative number on the command
    line is not taken as a count), and the only exception it lets escape
    is [out_of_range]. *)
Theorem get_count_outcome argv w st :
  snd (get_count argv w st) = st
  /\ match fst (get_count argv w st) with
     | Ok c => 0 <= c <= INT_MAX
     | Uncaught e => e = out_of_range
     | _ => False
     end.
Proof.
  induction argv as [|arg rest IH]; cbn [get_count].
  - split; [reflexivity|]. cbn. unfold DEFAULT_CLICK_COUNT, INT_MAX. lia.
  - destruct (isdigit (front arg)) eqn:Hd; [|exact IH].
    unfold stoi_or_throw. rewrite (stoi_digit_leading arg Hd).
    pose proof (read_digits_nonneg arg 0 ltac:(lia)) as Hnn.
    destruct (read_digits 0 arg <=? INT_MAX) eqn:E; cbn; [|auto].
    apply Z.leb_le in E. auto.
Qed.

(** ** The option loop *)

(** X12. Arguments that are none of [-d], [--debug], [-h], [--hold],
    [-cs], [--clickspeed], [-t], [--time] are skipped without a word: the
    option loop returns the hold time and the duration it was given and
    leaves the state as it was. *)
Theorem main_options_ignores_unknown args : forall argv hold_ms duration_ms w st,
  Forall (fun a => is_known_option a = false) args ->
  main_options args argv hold_ms duration_ms w st = (Ok (hold_ms, duration_ms), st).
Proof.
  induction args as [|arg rest IH]; intros argv hold_ms duration_ms w st Hall;
    [reflexivity|].
  inversion Hall as [|? ? Harg Hrest]; subst.
  unfold is_known_option, is_duration_option, is_hold_option, is_speed_option,
    is_time_option in Harg.
  apply orb_false_elim in Harg as (Hd & Harg).
  apply orb_false_elim in Harg as (Harg & Ht).
  apply orb_false_elim in Harg as (Hh & Hc).
  cbn [main_options]. rewrite Hd.
  destruct rest as [|next rest']; [reflexivity|].
  rewrite Hh, Hc, Ht. now apply IH.
Qed.

Lemma main_options_ignores_unknown_witness :
  main_options ["3"; "--fast"; "left"] ["mclick"; "l"; "3"; "--fast"; "left"] 120 0
    ideal_world (initial_state ideal_world) =
  (Ok (120, 0), initial_state ideal_world).
Proof.
  apply (main_options_ignores_unknown ["3"; "--fast"; "left"]).
  repeat constructor.
Defined.

(** ** Device acquisition, step by step *)

(** Either a step fails, or [setup_uinput_device] returns the descriptor
    [open] gave after exactly the six calls, with nothing printed. *)
Lemma setup_uinput_device_cases w st :
  acquisition_fails w
  \/ (~ acquisition_fails w
      /\ 0 <= open_result w
      /\ exists st',
           setup_uinput_device w st = (Ok (open_result w), st')
           /\ trace st' = trace st ++ setup_calls w).
Proof.
  unfold acquisition_fails.
  destruct (open_result w <? 0) eqn:H0; [apply Z.ltb_lt in H0; tauto|].
  destruct (ioctl_result w (UI_SET_EVBIT EV_KEY) <? 0) eqn:H1;
    [apply Z.ltb_lt in H1; tauto|].
  destruct (ioctl_result w (UI_SET_KEYBIT BTN_LEFT) <? 0) eqn:H2;
    [apply Z.ltb_lt in H2; tauto|].
  destruct (ioctl_result w (UI_SET_KEYBIT BTN_RIGHT) <? 0) eqn:H3;
    [apply Z.ltb_lt in H3; tauto|].
  destruct (write_dev_result w =? sizeof_uinput_user_dev) eqn:H4;
    [|apply Z.eqb_neq in H4; tauto].
  destruct (ioctl_result w UI_DEV_CREATE <? 0) eqn:H5;
    [apply Z.ltb_lt in H5; tauto|].
  right.
  assert (E : setup_uinput_device w st =
              (Ok (open_result w),
               emit (SysIoctl (open_result w) UI_DEV_CREATE (ioctl_result w UI_DEV_CREATE))
                 (emit (SysWriteDev (open_result w) (write_dev_result w))
                    (emit (SysIoctl (open_result w) (UI_SET_KEYBIT BTN_RIGHT)
                             (ioctl_result w (UI_SET_KEYBIT BTN_RIGHT)))
                       (emit (SysIoctl (open_result w) (UI_SET_KEYBIT BTN_LEFT)
                                (ioctl_result w (UI_SET_KEYBIT BTN_LEFT)))
                          (emit (SysIoctl (open_result w) (UI_SET_EVBIT EV_KEY)
                                   (ioctl_result w (UI_SET_EVBIT EV_KEY)))
                             (emit (SysOpen (open_result w)) st))))))).
  { unfold setup_uinput_device, orelse, bind, sys_open, sys_ioctl, sys_write_dev,
      ret. cbn [fst snd]. rewrite H0, H1, H2, H3, H4. cbn [negb]. now rewrite H5. }
  apply Z.ltb_ge in H0, H1, H2, H3, H5. apply Z.eqb_eq in H4.
  split; [lia|]. split; [exact H0|].
  eexists. split; [exact E|].
  unfold emit, setup_calls. cbn [trace]. rewrite <- !app_assoc. reflexivity.
Qed.

(** X1. When every step of the acquisition succeeds,
    [setup_uinput_device] returns the descriptor [open] gave, having made
    exactly six calls in this order: [open], the three capability
    [ioctl]s (key events, left button, right button), the write of the
    device record, [UI_DEV_CREATE]; nothing is printed and the descriptor
    is not closed.  Conversely it returns only then. *)
Theorem setup_uinput_device_succeeds w st :
  (~ acquisition_fails w ->
   fst (setup_uinput_device w st) = Ok (open_result w)
   /\ trace (snd (setup_uinput_device w st)) = trace st ++ setup_calls w)
  /\ (forall fd,
        fst (setup_uinput_device w st) = Ok fd ->
        ~ acquisition_fails w /\ fd = open_result w /\ 0 <= fd).
Proof.
  destruct (setup_uinput_device_cases w st) as [F|(N & Hfd & st' & E & T)].
  - split; [tauto|]. intros fd H.
    destruct (setup_uinput_device_fails w st F) as (X & _). rewrite X in H. discriminate.
  - rewrite E. cbn [fst snd]. split; [auto|].
    intros fd H. injection H as <-. auto.
Qed.

Lemma setup_uinput_device_succeeds_witness :
  fst (setup_uinput_device ideal_world (initial_state ideal_world)) = Ok 3
  /\ trace (snd (setup_uinput_device ideal_world (initial_state ideal_world))) =
     setup_calls ideal_world.
Proof.
  apply (proj1 (setup_uinput_device_succeeds ideal_world (initial_state ideal_world))).
  unfold acquisition_fails. cbn. lia.
Defined.

(** Closes one failing branch of [setup_uinput_device] for the statement
    below; [k] is the number of the failing call. *)
Ltac setup_stops k :=
  exists k; rewrite <- ?app_assoc; cbn [app]; rewrite syscalls_app;
  match goal with H : (open_result _ <? 0) = _ |- _ => rewrite ?H end;
  cbn -[sizeof_uinput_user_dev]; repeat split; try lia;
  repeat match goal with H : (_ <? 0) = _ |- _ => rewrite H; clear H end;
  repeat match goal with H : (_ =? _) = _ |- _ => rewrite H; clear H end;
  reflexivity.

(** X2. When a step fails, [setup_uinput_device] stops there: the calls
    made are the first [k] of the six, of which the last failed and the
    others succeeded, followed by nothing but the [close] of the
    descriptor (when [open] itself had succeeded).  No capability is
    registered after a failed one, no record written after a failed
    registration, no device created after a failed write. *)
Theorem setup_uinput_device_stops_at_failure w st :
  acquisition_fails w ->
  exists k,
    (1 <= k <= 6)%nat
    /\ syscalls (trace (snd (setup_uinput_device w st))) =
       syscalls (trace st) ++ firstn k (setup_calls w) ++
       (if open_result w <? 0 then [] else [SysClose (open_result w)])
    /\ step_failed (nth (k - 1) (setup_calls w) (SysClose 0)) = true
    /\ forallb (fun e => negb (step_failed e)) (firstn (k - 1) (setup_calls w)) = true.
Proof.
  intros Hf.
  unfold setup_uinput_device, orelse, bind, sys_open, sys_ioctl, sys_write_dev,
    sys_close, cerr, log, ret, exit, emit. cbn [fst snd trace].
  destruct (open_result w <? 0) eqn:H0; cbn [fst snd trace]; [setup_stops 1%nat|].
  destruct (ioctl_result w (UI_SET_EVBIT EV_KEY) <? 0) eqn:H1;
    cbn [fst snd trace]; [setup_stops 2%nat|].
  destruct (ioctl_result w (UI_SET_KEYBIT BTN_LEFT) <? 0) eqn:H2;
    cbn [fst snd trace]; [setup_stops 3%nat|].
  destruct (ioctl_result w (UI_SET_KEYBIT BTN_RIGHT) <? 0) eqn:H3;
    cbn [fst snd trace]; [setup_stops 4%nat|].
  destruct (write_dev_result w =? sizeof_uinput_user_dev) eqn:H4;
    cbn [negb fst snd trace]; [|setup_stops 5%nat].
  destruct (ioctl_result w UI_DEV_CREATE <? 0) eqn:H5;
    cbn [fst snd trace]; [setup_stops 6%nat|].
  exfalso.
  apply Z.ltb_ge in H0, H1, H2, H3, H5. apply Z.eqb_eq in H4.
  unfold acquisition_fails in Hf. lia.
Qed.

Lemma setup_uinput_device_stops_at_failure_witness :
  exists k,
    (1 <= k <= 6)%nat
    /\ syscalls (trace (snd (setup_uinput_device no_device_world
                               (initial_state no_device_world)))) =
       syscalls [] ++ firstn k (setup_calls no_device_world) ++ [].
Proof.
  destruct (setup_uinput_device_stops_at_failure no_device_world
              (initial_state no_device_world)) as (k & Hk & E & _).
  - left. cbn. lia.
  - exists k. split; [exact Hk | exact E].
Defined.

(** ** What the click driver does to the device *)

Lemma console_is_driver_event fd button es :
  Forall (fun e => is_console e = true) es ->
  forallb (driver_event fd button) es = true.
Proof.
  induction 1 as [|e es He _ IH]; [reflexivity|].
  cbn [forallb]. unfold driver_event at 1. now rewrite He, IH.
Qed.

Lemma emits_driver_send_input_event fd button type code value :
  driver_call fd button (SysWriteEvent fd 0 type code value 0) = true ->
  emits (driver_event fd button) (send_input_event fd type code value).
Proof.
  intros Hc w st.
  destruct (send_input_event_run fd type code value w st) as (c & -> & Hcons & _).
  eexists. split; [reflexivity|].
  cbn [forallb]. rewrite (console_is_driver_event _ _ _ Hcons), andb_true_r.
  unfold driver_event. cbn [is_console orb]. exact Hc.
Qed.

Lemma emits_driver_send_event fd button action :
  action = 0 \/ action = 1 ->
  emits (driver_event fd (to_uint16 button)) (send_event fd button action).
Proof.
  intros Ha. unfold send_event.
  apply emits_bind; [|intros _]; apply emits_driver_send_input_event;
    cbn [driver_call]; rewrite !Z.eqb_refl; [|reflexivity].
  destruct Ha as [-> | ->]; reflexivity.
Qed.

Lemma emits_driver_perform_clicks fd button count hold_ms speed_ms :
  emits (driver_event fd (to_uint16 button))
    (perform_clicks fd button count hold_ms speed_ms).
Proof.
  unfold perform_clicks. generalize 0 as i.
  induction (Z.to_nat count) as [|n IH]; intros i; cbn [perform_clicks_from];
    [emits_auto|].
  apply emits_bind; [apply emits_driver_send_event; now right|intros].
  apply emits_bind; [emits_auto|intros].
  apply emits_bind; [apply emits_driver_send_event; now left|intros].
  apply emits_bind; [emits_auto|intros].
  apply IH.
Qed.

Lemma emits_driver_perform_timed_clicks fuel fd button duration_ms hold_ms speed_ms :
  emits (driver_event fd (to_uint16 button))
    (perform_timed_clicks fuel fd button duration_ms hold_ms speed_ms).
Proof.
  unfold perform_timed_clicks, cout, now.
  apply emits_bind; [emits_auto|intros dbg].
  apply emits_bind; [emits_auto|intros _].
  apply emits_bind; [emits_auto|intros start].
  induction fuel as [|fuel IH]; cbn [timed_loop]; [emits_auto|].
  unfold now. apply emits_bind; [emits_auto|intros t].
  destruct (t - start <? duration_ms); [|emits_auto].
  apply emits_bind; [apply emits_driver_send_event; now right|intros].
  apply emits_bind; [emits_auto|intros].
  apply emits_bind; [apply emits_driver_send_event; now left|intros].
  apply emits_bind; [emits_auto|intros].
  apply IH.
Qed.

(** ** The shape of every run *)

(** The driver half of [main] after a successful acquisition. *)
Lemma drive_session fuel button count hold_ms duration_ms w st :
  ~ acquisition_fails w ->
  exists o st' es closing,
    drive fuel button count hold_ms duration_ms w st = (o, st')
    /\ trace st' = trace st ++ setup_calls w ++ es ++ closing
    /\ forallb click_event es = true
    /\ forallb (driver_event (open_result w) (to_uint16 button)) es = true
    /\ ((o = Ok EXIT_SUCCESS /\ closing = [SysClose (open_result w)])
        \/ (o = OutOfFuel /\ closing = [])).
Proof.
  intros Hok.
  destruct (setup_uinput_device_cases w st) as [F|(_ & _ & s1 & E1 & T1)];
    [contradiction|].
  set (fd := open_result w) in *.
  set (clicks :=
         if duration_ms >? 0 then
           speed <- get click_speed_ms ;;
           perform_timed_clicks fuel fd button duration_ms hold_ms speed
         else
           speed <- get click_speed_ms ;;
           perform_clicks fd button count hold_ms speed).
  assert (Hc : emits click_event clicks).
  { subst clicks. destruct (duration_ms >? 0);
      (apply emits_bind; [emits_auto|intros]);
      [apply emits_perform_timed_clicks | apply emits_perform_clicks]. }
  assert (Hd : emits (driver_event fd (to_uint16 button)) clicks).
  { subst clicks. destruct (duration_ms >? 0);
      (apply emits_bind; [emits_auto|intros]);
      [apply emits_driver_perform_timed_clicks | apply emits_driver_perform_clicks]. }
  assert (C : completes tt (fst (clicks w s1))).
  { subst clicks. destruct (duration_ms >? 0); unfold bind at 1; unfold get at 1.
    - unfold perform_timed_clicks. unfold bind at 1. unfold get at 1.
      unfold bind at 1.
      destruct (debug_mode s1); cbn [when cout log ret]; unfold bind at 1;
        unfold now at 1, get at 1; apply timed_loop_returns.
    - left. apply perform_clicks_from_returns. }
  destruct (Hc w s1) as (es & Tc & Pc). destruct (Hd w s1) as (es' & Td & Pd).
  rewrite Tc in Td. apply app_inv_head in Td. subst es'.
  assert (D : drive fuel button count hold_ms duration_ms w st =
              match clicks w s1 with
              | (Ok _, s2) => (Ok EXIT_SUCCESS, emit (SysClose fd) s2)
              | (Exit c, s2) => (Exit c, s2)
              | (Uncaught _, s2) =>
                  (Ok EXIT_FAILURE, emit (SysClose fd) (emit (Stderr MsgException) s2))
              | (OutOfFuel, s2) => (OutOfFuel, s2)
              end).
  { unfold drive. unfold bind at 1. rewrite E1. fold fd. fold clicks.
    unfold bind, try_catch. destruct (clicks w s1) as [[[]| | |] s2]; reflexivity. }
  rewrite D. destruct (clicks w s1) as [[[]|c|e|] s2]; cbn [fst snd] in *;
    try (destruct C; discriminate).
  - exists (Ok EXIT_SUCCESS), (emit (SysClose fd) s2), es, [SysClose fd].
    split; [reflexivity|].
    split; [cbn [emit trace]; rewrite Tc, T1, <- !app_assoc; reflexivity|].
    split; [exact Pc|]. split; [exact Pd|]. left. now split.
  - exists OutOfFuel, s2, es, []. split; [reflexivity|].
    split; [rewrite Tc, T1, <- !app_assoc, app_nil_r; reflexivity|].
    split; [exact Pc|]. split; [exact Pd|]. right. now split.
Qed.

(** Every run, whatever the arguments and the world, goes one of
    five ways: the usage is printed and [main] returns [EXIT_FAILURE]; the
    button is turned down, likewise; the front end turns the arguments
    down, having produced console lines only; device acquisition fails
    after the front end's console lines; or the six acquisition calls are
    followed by events of the click driver only and, unless the loop bound
    of the model is hit, by the [close] of the descriptor and
    [EXIT_SUCCESS]. *)
Lemma run_has_shape fuel argv w :
  run_shape argv w (fst (run fuel argv w)) (trace (snd (run fuel argv w))).
Proof.
  unfold run. set (st := initial_state w).
  destruct (is_help_request argv) eqn:Hh.
  { rewrite main_help by exact Hh. now apply shape_usage. }
  destruct argv as [|p [|a rest]]; try discriminate.
  destruct (find_button BUTTONS (front a)) as [button|] eqn:Hb.
  2:{ rewrite (main_invalid_button _ _ _ _ _ _ Hh Hb). cbn.
      now apply (shape_bad_button _ _ p a rest). }
  rewrite (main_split _ _ _ _ _ _ _ Hh Hb). unfold bind.
  pose proof (fails_loudly_front_end (p :: a :: rest) rest w st) as L.
  pose proof (emits_front_end (p :: a :: rest) rest w st) as (es1 & E1 & P1).
  pose proof (diagnosed_front_end (p :: a :: rest) rest w st) as (es' & E' & D).
  destruct (front_end (p :: a :: rest) rest w st) as [[x|c|e|] s1];
    cbn [fst snd st initial_state trace app] in *.
  - destruct (setup_uinput_device_cases w s1) as [F|(N & _)].
    + destruct (drive_setup_fails fuel button (fst x) (fst (snd x)) (snd (snd x))
                  w s1 F) as (-> & E).
      destruct (setup_uinput_device_fails w s1 F) as (_ & es2 & E2 & P2 & D2 & O2 & C2).
      rewrite E, E2, E1. now apply shape_no_device.
    + destruct (drive_session fuel button (fst x) (fst (snd x)) (snd (snd x)) w s1 N)
        as (o & st' & es2 & closing & -> & T & Pc & Pd & Ho).
      cbn [fst snd]. rewrite T, E1.
      now apply (shape_session _ _ p a rest button).
  - rewrite E1. apply shape_bad_arguments; [left; now subst c|exact P1].
  - rewrite E1. apply shape_bad_arguments; [right; now subst e|exact P1].
  - contradiction.
Qed.

Lemma driver_calls_of_events fd button es :
  forallb (driver_event fd button) es = true ->
  forallb (driver_call fd button) (syscalls es) = true.
Proof.
  induction es as [|e es IH]; [reflexivity|].
  cbn [forallb]. intros H. apply andb_prop in H as (He & Hes).
  unfold syscalls in *. cbn [filter].
  unfold driver_event in He.
  destruct (is_console e); cbn [negb orb] in *; [now apply IH|].
  cbn [forallb]. now rewrite He, IH.
Qed.

Lemma find_button_cases c button :
  find_button BUTTONS c = Some button ->
  (c = "l"%char /\ button = BTN_LEFT) \/ (c = "r"%char /\ button = BTN_RIGHT).
Proof.
  unfold BUTTONS. cbn [find_button].
  destruct (Ascii.eqb "l" c) eqn:El.
  { apply Ascii.eqb_eq in El. intros H. injection H as <-. now left. }
  destruct (Ascii.eqb "r" c) eqn:Er; [|discriminate].
  apply Ascii.eqb_eq in Er. intros H. injection H as <-. now right.
Qed.

Lemma front_events_syscalls es : forallb front_event es = true -> syscalls es = [].
Proof. intros H. now destruct (front_events_quiet _ H). Qed.

(** X10. A run that ends in [EXIT_SUCCESS] had a button argument whose
    first character is ['l'] or ['r'], in a world where acquisition
    succeeds, and its system calls are exactly: the six acquisition calls;
    then nothing but sleeps and writes, to the descriptor [open] returned,
    of key events of the selected button (left for ['l'], right for
    ['r']) with value 0 or 1 and of synchronization reports; then one
    [close] of that descriptor, last. *)
Theorem successful_run_session fuel argv w :
  fst (run fuel argv w) = Ok EXIT_SUCCESS ->
  exists program_name arg1 rest button mid,
    argv = program_name :: arg1 :: rest
    /\ ((front arg1 = "l"%char /\ button = BTN_LEFT)
        \/ (front arg1 = "r"%char /\ button = BTN_RIGHT))
    /\ ~ acquisition_fails w
    /\ syscalls (trace (snd (run fuel argv w))) =
       setup_calls w ++ mid ++ [SysClose (open_result w)]
    /\ forallb (driver_call (open_result w) button) mid = true.
Proof.
  intros Hs. pose proof (run_has_shape fuel argv w) as S.
  rewrite Hs in S.
  remember (Ok EXIT_SUCCESS) as o eqn:Ho.
  remember (trace (snd (run fuel argv w))) as tr eqn:Htr.
  destruct S as [Hh|p a rest Ha Hb|o es [->| ->] P|es1 es2 F P1 P2 D O C
                 |p a rest button o es1 es2 closing Ha Hb N P1 Pc Pd Hc];
    try discriminate Ho.
  destruct Hc as [(_ & ->)|(-> & _)]; [|discriminate Ho].
  exists p, a, rest, button, (syscalls es2).
  pose proof (find_button_cases _ _ Hb) as Hbutton.
  split; [exact Ha|]. split; [exact Hbutton|]. split; [exact N|]. split.
  - rewrite !syscalls_app, (front_events_syscalls _ P1). reflexivity.
  - apply driver_calls_of_events in Pd.
    destruct Hbutton as [(_ & ->)|(_ & ->)]; exact Pd.
Qed.

Lemma successful_run_session_witness :
  exists program_name arg1 rest button mid,
    ["mclick"; "right"; "2"] = program_name :: arg1 :: rest
    /\ ((front arg1 = "l"%char /\ button = BTN_LEFT)
        \/ (front arg1 = "r"%char /\ button = BTN_RIGHT))
    /\ ~ acquisition_fails ideal_world
    /\ syscalls (trace (snd (run 0 ["mclick"; "right"; "2"] ideal_world))) =
       setup_calls ideal_world ++ mid ++ [SysClose (open_result ideal_world)]
    /\ forallb (driver_call (open_result ideal_world) button) mid = true.
Proof.
  apply (successful_run_session 0 ["mclick"; "right"; "2"] ideal_world).
  reflexivity.
Defined.

Lemma last_any_default {A} (l : list A) (d d' : A) : l <> [] -> last l d = last l d'.
Proof.
  induction l as [|x l IH]; [contradiction|]. intros _.
  destruct l as [|y l]; [reflexivity|].
  change (last (y :: l) d = last (y :: l) d'). apply IH. discriminate.
Qed.

Lemma click_events_no_open es fd :
  forallb click_event es = true -> ~ In (SysOpen fd) es.
Proof.
  intros H Hin. rewrite forallb_forall in H. apply H in Hin. discriminate.
Qed.

(** X13. No run leaves the device open: whenever [open] returned a
    descriptor, on whatever path the run ends (a failed acquisition step
    or normal completion), the last event of the run is the [close] of
    that descriptor.  (A run cut short by the loop bound of the model is
    still inside the timed loop.) *)
Theorem device_closed_on_every_exit fuel argv w fd :
  In (SysOpen fd) (trace (snd (run fuel argv w))) ->
  0 <= fd ->
  fst (run fuel argv w) <> OutOfFuel ->
  last (trace (snd (run fuel argv w))) (SysOpen fd) = SysClose fd.
Proof.
  intros Hin Hfd Hfuel. pose proof (run_has_shape fuel argv w) as S.
  remember (fst (run fuel argv w)) as o eqn:Ho.
  remember (trace (snd (run fuel argv w))) as tr eqn:Htr.
  clear Ho Htr.
  destruct S as [Hh|p a rest Ha Hb|o es Hoe P|es1 es2 F P1 P2 D O C
                 |p a rest button o es1 es2 closing Ha Hb N P1 Pc Pd Hc].
  - destruct Hin as [H|[]]; discriminate H.
  - destruct Hin as [H|[]]; discriminate H.
  - now apply front_events_no_open in Hin.
  - apply in_app_or in Hin as [Hin|Hin]; [now apply front_events_no_open in Hin|].
    rewrite (O _ Hin) in *.
    assert (es2 <> []) by (intros ->; contradiction).
    rewrite last_append by assumption.
    rewrite <- (C Hfd). now apply last_any_default.
  - destruct Hc as [(_ & ->)|(-> & _)]; [|contradiction].
    assert (fd = open_result w) as ->.
    { apply in_app_or in Hin as [Hin|Hin]; [now apply front_events_no_open in Hin|].
      apply in_app_or in Hin as [Hin|Hin].
      - cbn in Hin. repeat (destruct Hin as [Hin|Hin]; [try discriminate Hin|]);
          try contradiction. now injection Hin.
      - apply in_app_or in Hin as [Hin|Hin]; [now apply click_events_no_open in Hin|].
        destruct Hin as [H|[]]; discriminate H. }
    rewrite !app_assoc. apply last_last.
Qed.

Lemma device_closed_on_every_exit_witness :
  last (trace (snd (run 5 ["mclick"; "l"; "-t"; "1"] ideal_world))) (SysOpen 3) =
  SysClose 3.
Proof.
  apply (device_closed_on_every_exit 5 ["mclick"; "l"; "-t"; "1"] ideal_world 3).
  - cbn. tauto.
  - lia.
  - discriminate.
Defined.

(** X14. The exit statuses of the program: a run ends with [main]
    returning [EXIT_SUCCESS] or [EXIT_FAILURE], with [exit(EXIT_FAILURE)],
    or aborted by an uncaught [out_of_range] (or in the loop bound of the
    model).  [main] returns [EXIT_FAILURE] only before any system call:
    the handler of its [try] block never runs, and its diagnostic is never
    printed. *)
Theorem run_outcomes fuel argv w :
  (fst (run fuel argv w) = Ok EXIT_SUCCESS
   \/ fst (run fuel argv w) = Ok EXIT_FAILURE
   \/ fst (run fuel argv w) = Exit EXIT_FAILURE
   \/ fst (run fuel argv w) = Uncaught out_of_range
   \/ fst (run fuel argv w) = OutOfFuel)
  /\ ~ In (Stderr MsgException) (trace (snd (run fuel argv w)))
  /\ (fst (run fuel argv w) = Ok EXIT_FAILURE ->
      syscalls (trace (snd (run fuel argv w))) = []).
Proof.
  pose proof (run_has_shape fuel argv w) as S.
  remember (fst (run fuel argv w)) as o eqn:Ho.
  remember (trace (snd (run fuel argv w))) as tr eqn:Htr.
  clear Ho Htr.
  assert (Nf : forall es, forallb front_event es = true -> ~ In (Stderr MsgException) es).
  { intros es H Hin. rewrite forallb_forall in H. apply H in Hin. discriminate. }
  assert (Ns : forall es, forallb setup_event es = true -> ~ In (Stderr MsgException) es).
  { intros es H Hin. rewrite forallb_forall in H. apply H in Hin. discriminate. }
  assert (Nc : forall es, forallb click_event es = true -> ~ In (Stderr MsgException) es).
  { intros es H Hin. rewrite forallb_forall in H. apply H in Hin. discriminate. }
  destruct S as [Hh|p a rest Ha Hb|o es Hoe P|es1 es2 F P1 P2 D O C
                 |p a rest button o es1 es2 closing Ha Hb N P1 Pc Pd Hc].
  - split; [tauto|]. split; [|reflexivity]. intros [H|[]]; discriminate H.
  - split; [tauto|]. split; [|reflexivity]. intros [H|[]]; discriminate H.
  - split; [tauto|]. split; [now apply Nf|].
    destruct Hoe as [-> | ->]; discriminate.
  - split; [tauto|]. split; [|discriminate].
    intros Hin. apply in_app_or in Hin as [Hin|Hin];
      [now apply Nf in Hin | now apply Ns in Hin].
  - split; [destruct Hc as [(-> & _)|(-> & _)]; tauto|]. split.
    + intros Hin. apply in_app_or in Hin as [Hin|Hin]; [now apply Nf in Hin|].
      apply in_app_or in Hin as [Hin|Hin].
      { cbn in Hin. repeat (destruct Hin as [Hin|Hin]; [discriminate Hin|]).
        contradiction. }
      apply in_app_or in Hin as [Hin|Hin]; [now apply Nc in Hin|].
      destruct Hc as [(_ & ->)|(_ & ->)]; [|contradiction].
      destruct Hin as [H|[]]; discriminate H.
    + destruct Hc as [(-> & _)|(-> & _)]; discriminate.
Qed.

Lemma run_outcomes_witness :
  syscalls (trace (snd (run 0 ["mclick"; "x"; "5"] ideal_world))) = [].
Proof.
  apply (proj2 (proj2 (run_outcomes 0 ["mclick"; "x"; "5"] ideal_world))).
  reflexivity.
Defined.

(** ** Time spent in bounded-count mode *)

Lemma perform_clicks_from_clock n : forall i fd button count H D w st,
  i + Z.of_nat n = count ->
  exists st',
    perform_clicks_from n i fd button count H D w st = (Ok tt, st')
    /\ clock st + Z.of_nat n * Z.max 0 H + Z.of_nat (pred n) * Z.max 0 D <= clock st'
    /\ (exact_sleep w ->
        clock st' = clock st + Z.of_nat n * Z.max 0 H + Z.of_nat (pred n) * Z.max 0 D).
Proof.
  induction n as [|n IH]; intros i fd button count H D w st Hi.
  - exists st. cbn [perform_clicks_from ret pred]. split; [reflexivity|]. lia.
  - cbn [perform_clicks_from]. unfold bind at 1.
    destruct (send_event_run fd button 1 w st) as (s1 & -> & P1).
    unfold bind at 1. cbn [sleep_ms].
    match goal with |- context [bind (send_event _ _ _) _ w ?s] => set (s2 := s) end.
    unfold bind at 1.
    destruct (send_event_run fd button 0 w s2) as (s3 & -> & P3).
    assert (C3 : clock s3 =
                 clock st + Z.max 0 H + Z.of_nat (oversleep w (sleeps_done s1))).
    { rewrite (sep_clock _ _ _ _ _ _ P3). subst s2. cbn [clock].
      now rewrite (sep_clock _ _ _ _ _ _ P1). }
    unfold bind at 1.
    destruct n as [|n'].
    + replace (i <? count - 1) with false by (symmetry; apply Z.ltb_ge; lia).
      cbn [when ret perform_clicks_from pred]. exists s3. split; [reflexivity|].
      rewrite C3. split; [lia|]. intros Hw. rewrite Hw. lia.
    + replace (i <? count - 1) with true by (symmetry; apply Z.ltb_lt; lia).
      cbn [when sleep_ms].
      match goal with |- context [perform_clicks_from _ _ _ _ _ _ _ w ?s] =>
        set (s4 := s) end.
      destruct (IH (i + 1) fd button count H D w s4) as (s5 & E5 & L5 & X5); [lia|].
      exists s5. split; [exact E5|].
      assert (C4 : clock s4 = clock s3 + Z.max 0 D +
                               Z.of_nat (oversleep w (sleeps_done s3)))
        by reflexivity.
      cbn [pred] in *. split; [lia|].
      intros Hw. rewrite (X5 Hw), C4, C3, !Hw. lia.
Qed.

(** X11. A bounded-count run of [N >= 1] clicks takes at least [N]
    holds and [N - 1] delays on the clock, a non-positive hold or delay
    counting as zero ([sleep_for] returns at once); with sleeps that
    return exactly on time it takes just that. *)
Theorem perform_clicks_elapsed fd button N H D w st :
  1 <= N ->
  let elapsed := clock (snd (perform_clicks fd button N H D w st)) - clock st in
  N * Z.max 0 H + (N - 1) * Z.max 0 D <= elapsed
  /\ (exact_sleep w -> elapsed = N * Z.max 0 H + (N - 1) * Z.max 0 D).
Proof.
  intros HN elapsed. subst elapsed. unfold perform_clicks.
  destruct (perform_clicks_from_clock (Z.to_nat N) 0 fd button N H D w st)
    as (st' & -> & L & X); [lia|].
  cbn [snd].
  assert (Hn : Z.of_nat (Z.to_nat N) = N) by lia.
  assert (Hp : Z.of_nat (pred (Z.to_nat N)) = N - 1) by lia.
  rewrite Hn, Hp in *. split; [lia|]. intros Hw. rewrite (X Hw). lia.
Qed.

Lemma perform_clicks_elapsed_witness :
  3 * Z.max 0 50 + (3 - 1) * Z.max 0 100 <=
  clock (snd (perform_clicks 3 BTN_LEFT 3 50 100 late_world (initial_state late_world)))
  - clock (initial_state late_world).
Proof.
  apply (perform_clicks_elapsed 3 BTN_LEFT 3 50 100 late_world (initial_state late_world)).
  lia.
Defined.

(** ** A run without options, end to end *)

Lemma setup_uinput_device_keeps_globals w st :
  click_speed_ms (snd (setup_uinput_device w st)) = click_speed_ms st
  /\ debug_mode (snd (setup_uinput_device w st)) = debug_mode st.
Proof.
  unfold setup_uinput_device, orelse, bind, sys_open, sys_ioctl, sys_write_dev,
    sys_close, cerr, log, ret, exit, emit. cbn [fst snd].
  destruct (open_result w <? 0); cbn [fst snd]; [now split|].
  destruct (ioctl_result w (UI_SET_EVBIT EV_KEY) <? 0); cbn [fst snd]; [now split|].
  destruct (ioctl_result w (UI_SET_KEYBIT BTN_LEFT) <? 0); cbn [fst snd]; [now split|].
  destruct (ioctl_result w (UI_SET_KEYBIT BTN_RIGHT) <? 0); cbn [fst snd]; [now split|].
  destruct (write_dev_result w =? sizeof_uinput_user_dev); cbn [negb fst snd];
    [|now split].
  destruct (ioctl_result w UI_DEV_CREATE <? 0); cbn [fst snd]; now split.
Qed.

Lemma button_is_no_help_request program_name arg1 rest button :
  find_button BUTTONS (front arg1) = Some button ->
  is_help_request (program_name :: arg1 :: rest) = false.
Proof.
  intros Hb. apply find_button_cases in Hb.
  cbn [is_help_request]. destruct arg1 as [|c s]; [reflexivity|].
  cbn [front] in Hb. destruct Hb as [(-> & _)|(-> & _)]; reflexivity.
Qed.

(** X15. A command line of program name, button and arguments none of
    which is an option, in a world where acquisition succeeds: the run
    returns [EXIT_SUCCESS], and what it does to the device and the clock
    is the bounded script for the count [get_count] finds (1 when no
    argument starts with a digit, nothing at all for a count of 0), with
    the default hold of 120 ms and the default delay of 120 ms. *)
Theorem default_bounded_run fuel program_name arg1 rest w button N :
  find_button BUTTONS (front arg1) = Some button ->
  Forall (fun a => is_known_option a = false) rest ->
  fst (get_count (program_name :: arg1 :: rest) w (initial_state w)) = Ok N ->
  ~ acquisition_fails w ->
  fst (run fuel (program_name :: arg1 :: rest) w) = Ok EXIT_SUCCESS
  /\ actions_of (trace (snd (run fuel (program_name :: arg1 :: rest) w))) =
     bounded_script (Z.to_nat N) button DEFAULT_HOLD_MS DEFAULT_CLICK_SPEED_MS.
Proof.
  intros Hb Hrest Hcount Hok.
  set (argv := program_name :: arg1 :: rest) in *.
  set (st := initial_state w) in *.
  pose proof (get_count_outcome argv w st) as (Gs & Gr).
  rewrite Hcount in Gr.
  assert (Gc : get_count argv w st = (Ok N, st)).
  { destruct (get_count argv w st) as [o s]. cbn [fst snd] in *. now subst. }
  assert (Fe : front_end argv rest w st = (Ok (N, (DEFAULT_HOLD_MS, 0)), st)).
  { unfold front_end, bind. rewrite Gc.
    now rewrite (main_options_ignores_unknown rest argv DEFAULT_HOLD_MS 0 w st Hrest). }
  destruct (setup_uinput_device_cases w st) as [F|(_ & _ & s1 & E1 & T1)];
    [contradiction|].
  pose proof (setup_uinput_device_keeps_globals w st) as (Ks & _).
  rewrite E1 in Ks. cbn [snd] in Ks.
  destruct (perform_clicks_from_run (Z.to_nat N) 0 (open_result w) button N
              DEFAULT_HOLD_MS DEFAULT_CLICK_SPEED_MS w s1) as (s2 & E2 & A2); [lia|].
  assert (R : run fuel argv w = (Ok EXIT_SUCCESS, emit (SysClose (open_result w)) s2)).
  { unfold run. fold st. unfold argv.
    rewrite (main_split _ _ _ _ _ _ _
               (button_is_no_help_request _ _ _ _ Hb) Hb).
    fold argv. unfold bind at 1. rewrite Fe. cbn [fst snd].
    unfold drive. unfold bind at 1. rewrite E1.
    unfold bind, try_catch, get. cbn [Z.gtb Z.compare].
    rewrite Ks. change (click_speed_ms st) with DEFAULT_CLICK_SPEED_MS.
    unfold perform_clicks. rewrite E2. reflexivity. }
  rewrite R. cbn [fst snd]. split; [reflexivity|].
  cbn [emit trace]. rewrite actions_of_app, A2, T1, actions_of_app.
  apply find_button_cases in Hb.
  destruct Hb as [(_ & ->)|(_ & ->)]; cbn; now rewrite app_nil_r.
Qed.

Lemma default_bounded_run_witness :
  fst (run 0 ["mclick"; "left"; "2"; "please"] ideal_world) = Ok EXIT_SUCCESS
  /\ actions_of (trace (snd (run 0 ["mclick"; "left"; "2"; "please"] ideal_world))) =
     bounded_script 2 BTN_LEFT DEFAULT_HOLD_MS DEFAULT_CLICK_SPEED_MS.
Proof.
  apply (default_bounded_run 0 "mclick" "left" ["2"; "please"] ideal_world BTN_LEFT 2).
  - reflexivity.
  - repeat constructor.
  - reflexivity.
  - unfold acquisition_fails. cbn. lia.
Defined.

(** ** A failed device acquisition *)

(** Closes one failing branch of [setup_uinput_device]: [k] calls were
    made, then the diagnostic, then the release. *)
Ltac setup_reports k :=
  split; [reflexivity|];
  exists k; split; [lia|];
  unfold failure_diagnostic, release_calls;
  repeat match goal with H : (_ <? 0) = _ |- _ => rewrite H; clear H end;
  repeat match goal with H : (_ =? _) = _ |- _ => rewrite H; clear H end;
  cbn [orb negb firstn setup_calls app];
  rewrite <- ?app_assoc; reflexivity.

(** A failing acquisition, call by call: the first [k] of the six calls,
    then the diagnostic of the failing step, then the release of the
    descriptor, and [exit(EXIT_FAILURE)]. *)
Lemma setup_uinput_device_reports w st :
  acquisition_fails w ->
  fst (setup_uinput_device w st) = Exit EXIT_FAILURE
  /\ exists k,
       (1 <= k <= 6)%nat
       /\ trace (snd (setup_uinput_device w st)) =
          trace st ++ firstn k (setup_calls w) ++
          Stderr (failure_diagnostic w) :: release_calls w.
Proof.
  intros Hf.
  unfold setup_uinput_device, orelse, bind, sys_open, sys_ioctl, sys_write_dev,
    sys_close, cerr, log, ret, exit, emit. cbn [fst snd trace].
  destruct (open_result w <? 0) eqn:H0; cbn [fst snd trace]; [setup_reports 1%nat|].
  destruct (ioctl_result w (UI_SET_EVBIT EV_KEY) <? 0) eqn:H1;
    cbn [fst snd trace]; [setup_reports 2%nat|].
  destruct (ioctl_result w (UI_SET_KEYBIT BTN_LEFT) <? 0) eqn:H2;
    cbn [fst snd trace]; [setup_reports 3%nat|].
  destruct (ioctl_result w (UI_SET_KEYBIT BTN_RIGHT) <? 0) eqn:H3;
    cbn [fst snd trace]; [setup_reports 4%nat|].
  destruct (write_dev_result w =? sizeof_uinput_user_dev) eqn:H4;
    cbn [negb fst snd trace]; [|setup_reports 5%nat].
  destruct (ioctl_result w UI_DEV_CREATE <? 0) eqn:H5;
    cbn [fst snd trace]; [setup_reports 6%nat|].
  exfalso.
  apply Z.ltb_ge in H0, H1, H2, H3, H5. apply Z.eqb_eq in H4.
  unfold acquisition_fails in Hf. lia.
Qed.

(** A run whose arguments the front end accepts goes on to the
    acquisition; when that fails the run is the front end's console lines
    followed by the failing acquisition. *)
Lemma run_reports_acquisition_failure fuel program_name arg1 rest button x w :
  acquisition_fails w ->
  find_button BUTTONS (front arg1) = Some button ->
  fst (front_end (program_name :: arg1 :: rest) rest w (initial_state w)) = Ok x ->
  fst (run fuel (program_name :: arg1 :: rest) w) = Exit EXIT_FAILURE
  /\ exists console k,
       forallb front_event console = true
       /\ (1 <= k <= 6)%nat
       /\ trace (snd (run fuel (program_name :: arg1 :: rest) w)) =
          console ++ firstn k (setup_calls w) ++
          Stderr (failure_diagnostic w) :: release_calls w.
Proof.
  intros Hf Hb Hfe. set (argv := program_name :: arg1 :: rest) in *.
  set (st := initial_state w) in *.
  pose proof (emits_front_end argv rest w st) as (es1 & E1 & P1).
  assert (R : exists s1, run fuel argv w = setup_uinput_device w s1
                         /\ trace s1 = es1).
  { unfold run. fold st. unfold argv.
    rewrite (main_split _ _ _ _ _ _ _ (button_is_no_help_request _ _ _ _ Hb) Hb).
    fold argv. unfold bind.
    destruct (front_end argv rest w st) as [o s1]. cbn [fst snd] in *. subst o.
    exists s1. split; [|exact E1].
    now destruct (drive_setup_fails fuel button (fst x) (fst (snd x)) (snd (snd x))
                    w s1 Hf). }
  destruct R as (s1 & -> & T1).
  destruct (setup_uinput_device_reports w s1 Hf) as (E & k & Hk & T).
  split; [exact E|]. exists es1, k. rewrite T, T1. auto.
Qed.

(** C5. In a world where device acquisition fails at any step (open, one
    of the three capability registrations, the descriptor write, the
    creation call):
    - [setup_uinput_device] makes the calls up to the failing one, prints
      the diagnostic of that step, closes the descriptor when [open] had
      returned one (and only then), and calls [exit(EXIT_FAILURE)];
    - every run ends with a non-zero status and without a single
      [input_event] write, and a run whose trace shows an [open] has
      printed a diagnostic of the acquisition, called [exit(EXIT_FAILURE)]
      and closed the descriptor as its last action;
    - every run whose arguments the front end accepts does reach the
      acquisition: after the front end's console lines its trace is exactly
      these calls, that diagnostic and that release, and it ends in
      [exit(EXIT_FAILURE)]. *)
Theorem acquisition_failure_is_fatal w :
  acquisition_fails w ->
  (forall st,
      fst (setup_uinput_device w st) = Exit EXIT_FAILURE
      /\ exists k,
           (1 <= k <= 6)%nat
           /\ trace (snd (setup_uinput_device w st)) =
              trace st ++ firstn k (setup_calls w) ++
              Stderr (failure_diagnostic w) :: release_calls w)
  /\ (forall fuel argv,
        exits_nonzero (fst (run fuel argv w))
        /\ shape (trace (snd (run fuel argv w))) = []
        /\ (forall fd, In (SysOpen fd) (trace (snd (run fuel argv w))) ->
              fst (run fuel argv w) = Exit EXIT_FAILURE
              /\ (exists m, In (Stderr m) (trace (snd (run fuel argv w)))
                            /\ setup_event (Stderr m) = true)
              /\ (0 <= fd ->
                  last (trace (snd (run fuel argv w))) (SysOpen fd) = SysClose fd)))
  /\ (forall fuel program_name arg1 rest button x,
        find_button BUTTONS (front arg1) = Some button ->
        fst (front_end (program_name :: arg1 :: rest) rest w (initial_state w)) = Ok x ->
        fst (run fuel (program_name :: arg1 :: rest) w) = Exit EXIT_FAILURE
        /\ exists console k,
             forallb front_event console = true
             /\ (1 <= k <= 6)%nat
             /\ trace (snd (run fuel (program_name :: arg1 :: rest) w)) =
                console ++ firstn k (setup_calls w) ++
                Stderr (failure_diagnostic w) :: release_calls w).
Proof.
  intros Hf. split; [|split].
  - intros st. now apply setup_uinput_device_reports.
  - intros fuel argv. now apply acquisition_failure_runs.
  - intros fuel p a rest button x Hb Hfe.
    now apply (run_reports_acquisition_failure fuel p a rest button x).
Qed.

Lemma acquisition_failure_is_fatal_witness :
  fst (run 10 ["mclick"; "l"; "3"] create_fails_world) = Exit EXIT_FAILURE
  /\ exists console k,
       forallb front_event console = true
       /\ (1 <= k <= 6)%nat
       /\ trace (snd (run 10 ["mclick"; "l"; "3"] create_fails_world)) =
          console ++ firstn k (setup_calls create_fails_world) ++
          [Stderr MsgCreateFailed; SysClose 3].
Proof.
  assert (Hf : acquisition_fails create_fails_world).
  { unfold acquisition_fails. cbn. lia. }
  apply (proj2 (proj2 (acquisition_failure_is_fatal create_fails_world Hf))
           10%nat "mclick" "l" ["3"] BTN_LEFT (3, (120, 0))); reflexivity.
Defined.
